(** * The catalogue seeding script [carga_datos/load_data.py]

    A shallow embedding of [load_categories], [load_products] and [main],
    and of the collaborators they drive: the JSON input files, the logger
    and the SQLAlchemy session.  The script's functions are embedded in a
    state-and-exception monad over a [World] made of the backing store, the
    session and the log. *)

From Stdlib Require Import QArith Qcanon.
From stdpp Require Import gmap strings list fin_maps.

#[local] Set Warnings "-clear-no-such-hyp".

Local Open Scope Z_scope.

(** ** Python values carried by the JSON records *)

(** The scalars [json.load] produces for the fields the script reads:
    [None] (JSON null), [str] and numbers.  Python compares [1] and [1.0]
    equal, also as dictionary keys, so one constructor over canonical
    rationals covers [int] and [float].  Fields holding JSON booleans,
    arrays or objects are outside the model. *)
Inductive value :=
  | VNone
  | VStr (s : string)
  | VNum (q : Qc).

Global Instance value_eq_dec : EqDecision value.
Proof. solve_decision. Defined.

Global Instance value_countable : Countable value.
Proof.
  refine (inj_countable'
    (λ v, match v with
          | VNone => inl (inl ())
          | VStr s => inl (inr s)
          | VNum q => inr q
          end)
    (λ x, match x with
          | inl (inl _) => VNone
          | inl (inr s) => VStr s
          | inr q => VNum q
          end) _).
  by intros [].
Defined.

(** Python truthiness, as tested by [if not name]. *)
Definition truthy (v : value) : bool :=
  match v with
  | VNone => false
  | VStr s => negb (bool_decide (s = ""%string))
  | VNum q => negb (bool_decide (q = Q2Qc 0))
  end.

(** An element of the JSON array: an object ([dict]) or anything else. *)
Inductive record :=
  | Obj (d : gmap string value)
  | NonObj.

(** What sits at the path of an input file: nothing, a file that is not
    JSON, or a JSON array.  A JSON file whose top level is not an array is
    outside the model. *)
Inductive file :=
  | Absent
  | Invalid
  | Content (data : list record).

Record Files := {
  CATEGORIES_FILE : file;
  PRODUCTS_FILE : file
}.

(** ** Storage entities *)

Record Category := {
  category_id : Z;
  category_name : value
}.

Record Product := {
  product_id : Z;
  product_name : value;
  product_price : value;
  product_stock : value;
  product_category_id : Z
}.

Global Instance Category_eq_dec : EqDecision Category.
Proof. solve_decision. Defined.
Global Instance Product_eq_dec : EqDecision Product.
Proof. solve_decision. Defined.

(** The objects the script constructs, [CategoryModel(name=...)] and
    [ProductModel(name=..., price=..., stock=..., category_id=...)]:
    transient, without identifier, until a flush inserts them. *)
Inductive Transient :=
  | CategoryModel (name : value)
  | ProductModel (name price stock : value) (category_id : Z).

Record Database := {
  categories : list Category;
  products : list Product
}.

(** ** The session *)

(** Modelled from the spec: the session factory of [config.database] and
    the unit of work it produces are not among the sources.  The spec gives
    [add], [flush] (stage and assign identifier without committing),
    query-by-field, [commit], [rollback], [close], and identifiers assigned
    by storage.  Whether a query flushes pending objects first is the
    factory's [autoflush] setting, kept as a parameter of the session.
    [rolled_back] records that [rollback] was called on the session: once
    the session is closed the call leaves no other trace. *)
Record Session := {
  autoflush : bool;
  tx : Database;
  pending : list Transient;
  closed : bool;
  rolled_back : bool
}.

(** Modelled from the spec: identifiers are assigned by storage; the next
    one is above every identifier in the table. *)
Definition fresh_id (ids : list Z) : Z := 1 + foldr Z.max 0 ids.

(** Modelled from the spec: the tables of [models.category] and
    [models.product] are not among the sources.  A row holds the fields
    the object was constructed with (column defaults and constraints of
    the table declarations are not modelled) under a new identifier. *)
Definition insert_row (d : Database) (t : Transient) : Database :=
  match t with
  | CategoryModel name =>
      {| categories := categories d ++
           [ {| category_id := fresh_id (category_id <$> categories d);
                category_name := name |} ];
         products := products d |}
  | ProductModel name price stock cid =>
      {| categories := categories d;
         products := products d ++
           [ {| product_id := fresh_id (product_id <$> products d);
                product_name := name;
                product_price := price;
                product_stock := stock;
                product_category_id := cid |} ] |}
  end.

(** The identifier the row of [t] receives, read back as [obj.id]. *)
Definition assigned_id (d : Database) (t : Transient) : Z :=
  match t with
  | CategoryModel _ => fresh_id (category_id <$> categories d)
  | ProductModel _ _ _ _ => fresh_id (product_id <$> products d)
  end.

(** Modelled from the spec: a flush inserts the pending objects, in the
    order they were added, without committing. *)
Definition flush_rows (d : Database) (ts : list Transient) : Database :=
  foldl insert_row d ts.

Fixpoint flush_ids (d : Database) (ts : list Transient) : list Z :=
  match ts with
  | [] => []
  | t :: ts' => assigned_id d t :: flush_ids (insert_row d t) ts'
  end.

(** Modelled from the spec: [add] stages an object. *)
Definition session_add (t : Transient) (s : Session) : Session :=
  {| autoflush := autoflush s; tx := tx s;
     pending := pending s ++ [t]; closed := closed s;
     rolled_back := rolled_back s |}.

(** Modelled from the spec: [flush] writes the staged objects into the
    transaction, where they get their identifiers. *)
Definition session_flush (s : Session) : Session :=
  {| autoflush := autoflush s; tx := flush_rows (tx s) (pending s);
     pending := []; closed := closed s; rolled_back := rolled_back s |}.

(** Modelled from the spec: what a query does to the session before it
    reads, according to the factory's setting. *)
Definition session_autoflush (s : Session) : Session :=
  if autoflush s then session_flush s else s.

(** ** Log *)

Inductive level := INFO | WARNING | ERROR.

Inductive Exception :=
  | JSONDecodeError
  | AttributeError
  | KeyError.

Global Instance level_eq_dec : EqDecision level.
Proof. solve_decision. Defined.
Global Instance Exception_eq_dec : EqDecision Exception.
Proof. solve_decision. Defined.

Inductive message :=
  | Starting
  | CouldNotConnect
  | CategoriesFileNotFound
  | ProcessingCategories (n : nat)
  | CategoriesLoaded (new_count existing_count : nat)
  | ProductsFileNotFound
  | ProcessingProducts (n : nat)
  | CategoryNotFound (category_name product_name : value)
  | ProductsLoaded (new_count skipped_count : nat)
  | NoCategoriesLoaded
  | ErrorOccurred (e : Exception)
  | Completed.

Global Instance message_eq_dec : EqDecision message.
Proof. solve_decision. Defined.

(** ** The monad *)

Record World := {
  store : Database;
  db : Session;
  logs : list (level * message)
}.

Inductive Result (A : Type) :=
  | Return (a : A)
  | Raise (e : Exception).
Arguments Return {A} a.
Arguments Raise {A} e.

Definition M (A : Type) : Type := World → Result A * World.

Global Instance M_ret : MRet M := λ A a w, (Return a, w).
Global Instance M_bind : MBind M := λ A B f m w,
  match m w with
  | (Return a, w') => f a w'
  | (Raise e, w') => (Raise e, w')
  end.

Definition raise {A} (e : Exception) : M A := λ w, (Raise e, w).

Definition with_session (f : Session → Session) : M unit := λ w,
  (Return (), {| store := store w; db := f (db w); logs := logs w |}).

Definition log_line (l : level) (m : message) (w : World) : World :=
  {| store := store w; db := db w; logs := logs w ++ [(l, m)] |}.

(** [logger.info], [logger.warning], [logger.error] *)
Definition logger (l : level) (m : message) : M unit := λ w,
  (Return (), log_line l m w).

(** [db.add(obj)] *)
Definition db_add (t : Transient) : M unit := with_session (session_add t).

(** [db.flush()], returning the identifiers the flushed objects got. *)
Definition db_flush : M (list Z) := λ w,
  (Return (flush_ids (tx (db w)) (pending (db w))),
   {| store := store w; db := session_flush (db w); logs := logs w |}).

(** [db.query(CategoryModel).filter(CategoryModel.name == name).first()];
    modelled from the spec: the first row, in insertion order, whose name
    is [name]. *)
Definition query_category (name : value) : M (option Category) := λ w,
  let s := session_autoflush (db w) in
  (Return (List.find (λ c, bool_decide (category_name c = name))
             (categories (tx s))),
   {| store := store w; db := s; logs := logs w |}).

(** [db.query(ProductModel).filter(ProductModel.name == name).first()];
    modelled from the spec as for categories. *)
Definition query_product (name : value) : M (option Product) := λ w,
  let s := session_autoflush (db w) in
  (Return (List.find (λ p, bool_decide (product_name p = name))
             (products (tx s))),
   {| store := store w; db := s; logs := logs w |}).

(** Modelled from the spec: [db.commit()] flushes and makes the
    transaction the content of the store. *)
Definition db_commit : M unit := λ w,
  let s := session_flush (db w) in
  (Return (), {| store := tx s; db := s; logs := logs w |}).

(** Modelled from the spec: [db.rollback()] drops what was staged or
    flushed since the last commit. *)
Definition db_rollback : M unit := λ w,
  (Return (),
   {| store := store w;
      db := {| autoflush := autoflush (db w); tx := store w;
               pending := []; closed := closed (db w);
               rolled_back := true |};
      logs := logs w |}).

(** Modelled from the spec: [db.close()] releases the session, dropping
    what was not committed. *)
Definition db_close : M unit := λ w,
  (Return (),
   {| store := store w;
      db := {| autoflush := autoflush (db w); tx := store w;
               pending := []; closed := true;
               rolled_back := rolled_back (db w) |};
      logs := logs w |}).

(** Modelled from the spec: [SessionLocal()], a session over the current
    content of the store; [af] is the factory's autoflush setting. *)
Definition SessionLocal (af : bool) (d : Database) : Session :=
  {| autoflush := af; tx := d; pending := []; closed := false;
     rolled_back := false |}.

(** [dict.get(key)]: [None] when the key is absent. *)
Definition dict_get (d : gmap string value) (key : string) : value :=
  default VNone (d !! key).

(** [record.get(key)]: [AttributeError] when the record is not a [dict]. *)
Definition get (r : record) (key : string) : M value :=
  match r with
  | Obj d => mret (dict_get d key)
  | NonObj => raise AttributeError
  end.

(** [for x in xs: body], the loop's variables threaded through [acc]. *)
Fixpoint for_each {A S : Type} (xs : list A) (body : A → S → M S) (acc : S)
  : M S :=
  match xs with
  | [] => mret acc
  | x :: xs' => acc' ← body x acc; for_each xs' body acc'
  end.

(** [category_map[key]] *)
Definition getitem (category_map : gmap value Z) (key : value) : M Z :=
  match category_map !! key with
  | Some i => mret i
  | None => raise KeyError
  end.

(** [json.load] of the file at a path known to exist. *)
Definition json_load (f : file) : M (list record) :=
  match f with
  | Content data => mret data
  | _ => raise JSONDecodeError
  end.

Definition exists_file (f : file) : bool :=
  match f with Absent => false | _ => true end.

(** ** [load_categories] *)

(** The body of the loop over [categories_data]; the accumulator holds
    [category_map], [new_count] and [existing_count]. *)
Definition load_categories_body (cat_data : record)
    (acc : gmap value Z * nat * nat) : M (gmap value Z * nat * nat) :=
  let '(category_map, new_count, existing_count) := acc in
  name ← get cat_data "name";
  if negb (truthy name) then mret (category_map, new_count, existing_count)
  else
    category ← query_category name;
    '(id, new_count, existing_count) ←
      match category with
      | None =>
          db_add (CategoryModel name);;
          ids ← db_flush;
          mret (List.last ids 0, S new_count, existing_count)
      | Some c => mret (category_id c, new_count, S existing_count)
      end;
    mret (<[name := id]> category_map, new_count, existing_count).

Definition load_categories (fs : Files) : M (gmap value Z) :=
  if negb (exists_file (CATEGORIES_FILE fs)) then
    logger ERROR CategoriesFileNotFound;;
    mret ∅
  else
    categories_data ← json_load (CATEGORIES_FILE fs);
    logger INFO (ProcessingCategories (length categories_data));;
    '(category_map, new_count, existing_count) ←
      for_each categories_data load_categories_body (∅, 0%nat, 0%nat);
    db_commit;;
    logger INFO (CategoriesLoaded new_count existing_count);;
    mret category_map.

(** ** [load_products] *)

(** The body of the loop over [products_data]; the accumulator holds
    [new_count] and [skipped_count]. *)
Definition load_products_body (category_map : gmap value Z)
    (prod_data : record) (acc : nat * nat) : M (nat * nat) :=
  let '(new_count, skipped_count) := acc in
  category_name ← get prod_data "category";
  if bool_decide (category_name ∉ dom category_map) then
    name ← get prod_data "name";
    logger WARNING (CategoryNotFound category_name name);;
    mret (new_count, S skipped_count)
  else
    product_name ← get prod_data "name";
    existing_product ← query_product product_name;
    match existing_product with
    | Some _ => mret (new_count, S skipped_count)
    | None =>
        price ← get prod_data "price";
        stock ← get prod_data "stock";
        cid ← getitem category_map category_name;
        db_add (ProductModel product_name price stock cid);;
        mret (S new_count, skipped_count)
    end.

Definition load_products (fs : Files) (category_map : gmap value Z) : M unit :=
  if negb (exists_file (PRODUCTS_FILE fs)) then
    logger ERROR ProductsFileNotFound
  else
    products_data ← json_load (PRODUCTS_FILE fs);
    logger INFO (ProcessingProducts (length products_data));;
    '(new_count, skipped_count) ←
      for_each products_data (load_products_body category_map) (0%nat, 0%nat);
    db_commit;;
    logger INFO (ProductsLoaded new_count skipped_count).

(** ** [main] *)

(** [try: body / except Exception as e: handler e / finally: finalizer] *)
Definition try_except_finally (body : M unit) (handler : Exception → M unit)
    (finalizer : M unit) : M unit := λ w,
  match body w with
  | (Return _, w1) => finalizer w1
  | (Raise e, w1) =>
      match handler e w1 with
      | (Return _, w2) => finalizer w2
      | (Raise e', w2) =>
          match finalizer w2 with
          | (Return _, w3) => (Raise e', w3)
          | r => r
          end
      end
  end.

(** The suite of the [try] statement of [main]. *)
Definition loading_body (fs : Files) : M unit :=
  category_map ← load_categories fs;
  if bool_decide (category_map ≠ ∅) then load_products fs category_map
  else logger WARNING NoCategoriesLoaded.

(** The [try] statement of [main], entered with the session open. *)
Definition loading (fs : Files) : M unit :=
  try_except_finally
    (loading_body fs)
    (λ e, logger ERROR (ErrorOccurred e);; db_rollback)
    db_close.

(** What a run of the script leaves behind: the exit status of the process,
    the content of the store, the session [main] opened (if it got that
    far) and the lines logged. *)
Record Process := {
  exit_code : Z;
  final_store : Database;
  session : option Session;
  output : list (level * message)
}.

(** The world in which [main] enters its [try] statement. *)
Definition connected (af : bool) (d : Database) : World :=
  {| store := d; db := SessionLocal af d; logs := [(INFO, Starting)] |}.

(** [check_connection] is the result of [check_connection()], [af] the
    factory's autoflush setting, [d] the content of the store at start. *)
Definition main (check_connection af : bool) (fs : Files) (d : Database)
  : Process :=
  let log0 := [(INFO, Starting)] in
  if negb check_connection then
    {| exit_code := 1; final_store := d; session := None;
       output := log0 ++ [(ERROR, CouldNotConnect)] |}
  else
    match (loading fs;; logger INFO Completed) (connected af d) with
    | (Return _, w') =>
        {| exit_code := 0; final_store := store w';
           session := Some (db w'); output := logs w' |}
    | (Raise _, w') =>
        {| exit_code := 1; final_store := store w';
           session := Some (db w'); output := logs w' |}
    end.

(** ** Examples from the specification *)

Definition Books : value := VStr "Books".
Definition Toys : value := VStr "Toys".
Definition Dune : value := VStr "Dune".

Definition dune_record : record :=
  Obj (<["name" := Dune]> (<["price" := VNum (Q2Qc (31 # 2))]>
      (<["stock" := VNum (Q2Qc 10)]> (<["category" := Books]> ∅)))).

Definition empty_db : Database := {| categories := []; products := [] |}.

Definition books_files : Files :=
  {| CATEGORIES_FILE := Content [Obj {["name" := Books]}];
     PRODUCTS_FILE := Content [dune_record] |}.

Definition toys_files : Files :=
  {| CATEGORIES_FILE := Content [Obj {["name" := Toys]}];
     PRODUCTS_FILE := Content [dune_record] |}.

(** * Vocabulary of the properties *)

(** ** Outcomes of a computation *)

(** [m], run in [w], returns a value and a world in [Q] or raises an
    exception and leaves a world in [E]. *)
Definition wp {A} (m : M A) (w : World) (Q : A → World → Prop)
    (E : Exception → World → Prop) : Prop :=
  match m w with
  | (Return a, w') => Q a w'
  | (Raise e, w') => E e w'
  end.

Ltac step_body :=
  unfold load_categories_body, load_products_body, get, getitem, raise,
    query_category, query_product, db_add, db_flush, with_session, logger,
    wp, mbind, M_bind, mret, M_ret; simpl.

(** ** Sessions and stores *)

(** What [db.commit()] would make of the session: the transaction's rows
    followed by the rows of the pending objects. *)
Definition view (s : Session) : Database := flush_rows (tx s) (pending s).

(** What a query sees: with autoflush the pending objects too. *)
Definition visible (s : Session) : Database := tx (session_autoflush s).

(** [d'] holds the rows of [d], unchanged and in place, and maybe more. *)
Definition extends (d d' : Database) : Prop :=
  categories d `prefix_of` categories d' ∧
  products d `prefix_of` products d'.

(** The session holds nothing but the committed content of the store. *)
Definition clean (w : World) : Prop :=
  pending (db w) = [] ∧ tx (db w) = store w.

(** The session after [db.close()] in world [w]. *)
Definition closed_session (w : World) : Session :=
  {| autoflush := autoflush (db w); tx := store w; pending := [];
     closed := true; rolled_back := rolled_back (db w) |}.

(** The session after [db.rollback()] then [db.close()] in world [w]. *)
Definition rolled_back_session (w : World) : Session :=
  {| autoflush := autoflush (db w); tx := store w; pending := [];
     closed := true; rolled_back := true |}.

Definition category_ids (d : Database) : list Z :=
  category_id <$> categories d.

Definition category_names (d : Database) : list value :=
  category_name <$> categories d.

Definition product_names (d : Database) : list value :=
  product_name <$> products d.

(** Every product refers to a category of the same store. *)
Definition referential_integrity (d : Database) : Prop :=
  ∀ p, p ∈ products d →
    ∃ c, c ∈ categories d ∧ category_id c = product_category_id p.

(** ** Files *)

Definition is_obj (r : record) : bool :=
  match r with Obj _ => true | NonObj => false end.

(** The non-empty names of the objects of a file, in order. *)
Definition names (rs : list record) : list value :=
  omap (λ r, match r with
             | Obj d => if truthy (dict_get d "name")
                        then Some (dict_get d "name") else None
             | NonObj => None
             end) rs.

(** The warnings [load_products] logs over a file, given the keys of the
    mapping. *)
Definition warnings (keys : gset value) (ps : list record)
  : list (level * message) :=
  omap (λ r, match r with
             | Obj d =>
                 if bool_decide (dict_get d "category" ∈ keys)
                 then None
                 else Some (WARNING,
                            CategoryNotFound (dict_get d "category")
                              (dict_get d "name"))
             | NonObj => None
             end) ps.

(** ** Loop invariants *)

(** What holds in the loop of [load_categories], entered in world [w0] with
    the accumulator [(m0, n0, e0)], after the records [pre]. *)
Definition categories_inv (w0 : World) (m0 : gmap value Z) (n0 e0 : nat)
    (pre : list record) (acc : gmap value Z * nat * nat) (w : World) : Prop :=
  let '(m, n, e) := acc in
  store w = store w0 ∧ logs w = logs w0 ∧
  autoflush (db w) = autoflush (db w0) ∧ closed (db w) = closed (db w0) ∧
  pending (db w) = [] ∧
  categories (tx (db w0)) `prefix_of` categories (tx (db w)) ∧
  products (tx (db w)) = products (tx (db w0)) ∧
  Forall is_obj pre ∧
  dom m = dom m0 ∪ list_to_set (names pre) ∧
  (∀ k i, m !! k = Some i →
     m0 !! k = Some i ∨ i ∈ category_ids (tx (db w))) ∧
  (∀ k, k ∈ names pre → k ∈ category_names (tx (db w))) ∧
  (n + e = n0 + e0 + length (names pre))%nat.

(** What holds in the loop of [load_products], entered in world [w0] with
    the mapping [category_map], after the records [pre]. *)
Definition products_inv (w0 : World) (category_map : gmap value Z)
    (pre : list record) (acc : nat * nat) (w : World) : Prop :=
  store w = store w0 ∧
  autoflush (db w) = autoflush (db w0) ∧ closed (db w) = closed (db w0) ∧
  extends (view (db w0)) (view (db w)) ∧
  categories (view (db w)) = categories (view (db w0)) ∧
  Forall is_obj pre ∧
  (∀ d, Obj d ∈ pre →
     dict_get d "category" ∉ dom category_map ∨
     dict_get d "name" ∈ product_names (view (db w))) ∧
  (∀ p, p ∈ products (view (db w)) →
     p ∈ products (view (db w0)) ∨
     ∃ k, category_map !! k = Some (product_category_id p)).

(** The store has all the input can give: every named category of the
    file, and, if product loading will run, for every product record either
    no category or a product of its name. *)
Definition stable (fs : Files) (d : Database) : Prop :=
  match CATEGORIES_FILE fs with
  | Content cs =>
      Forall is_obj cs →
      (∀ k, k ∈ names cs → k ∈ category_names d) ∧
      (names cs ≠ [] →
       match PRODUCTS_FILE fs with
       | Content ps =>
           Forall is_obj ps →
           ∀ r, Obj r ∈ ps →
             dict_get r "category" ∉ (list_to_set (names cs) : gset value) ∨
             dict_get r "name" ∈ product_names d
       | _ => True
       end)
  | _ => True
  end.

(** ** More facts the loops keep *)

(** In the loop of [load_categories], entered in world [w0] with the
    accumulator [(m0, n0, _)]: nothing is pending, a binding of the mapping
    is the identifier and the name of a category of the transaction, names
    that were distinct stay distinct, and the categories grew by the number
    of new ones. *)
Definition categories_facts (w0 : World) (m0 : gmap value Z) (n0 : nat)
    (acc : gmap value Z * nat * nat) (w : World) : Prop :=
  let '(m, n, e) := acc in
  pending (db w) = [] ∧
  (∀ k i, m !! k = Some i →
     m0 !! k = Some i ∨
     ∃ c, c ∈ categories (tx (db w)) ∧ category_id c = i ∧
          category_name c = k) ∧
  (NoDup (category_names (tx (db w0))) →
   NoDup (category_names (tx (db w)))) ∧
  (n0 ≤ n)%nat ∧
  length (categories (tx (db w))) =
    (length (categories (tx (db w0))) + (n - n0))%nat.

(** In the loop of [load_products], entered in world [w0] with the
    accumulator [(n0, k0)], after the records [pre]: the warnings logged,
    the counters, the growth of the products, where each product comes
    from, and, under autoflush, the distinctness of the product names. *)
Definition products_facts (w0 : World) (category_map : gmap value Z)
    (n0 k0 : nat) (pre : list record) (acc : nat * nat) (w : World) : Prop :=
  let '(n, k) := acc in
  logs w = logs w0 ++ warnings (dom category_map) pre ∧
  (n + k = n0 + k0 + length pre)%nat ∧
  (n0 ≤ n)%nat ∧
  length (products (view (db w))) =
    (length (products (view (db w0))) + (n - n0))%nat ∧
  (∀ p, p ∈ products (view (db w)) →
     p ∈ products (view (db w0)) ∨
     ∃ d, Obj d ∈ pre ∧
          product_name p = dict_get d "name" ∧
          product_price p = dict_get d "price" ∧
          product_stock p = dict_get d "stock" ∧
          category_map !! dict_get d "category" =
            Some (product_category_id p)) ∧
  (autoflush (db w0) = true →
   autoflush (db w) = true ∧
   (NoDup (product_names (view (db w0))) →
    NoDup (product_names (view (db w))))).

(** The products [load_products] stages over a file when queries do not
    flush: one for every record whose category resolves and whose name no
    product of [d0] carries, repeated names included. *)
Definition new_products (category_map : gmap value Z) (d0 : Database)
    (ps : list record) : list Transient :=
  omap (λ r, match r with
             | Obj d =>
                 match category_map !! dict_get d "category" with
                 | Some cid =>
                     if bool_decide (dict_get d "name" ∈ product_names d0)
                     then None
                     else Some (ProductModel (dict_get d "name")
                                  (dict_get d "price") (dict_get d "stock")
                                  cid)
                 | None => None
                 end
             | NonObj => None
             end) ps.

(** The name a staged product will be stored under. *)
Definition staged_name (t : Transient) : option value :=
  match t with
  | ProductModel name _ _ _ => Some name
  | CategoryModel _ => None
  end.

(** A products file naming the same new product twice. *)
Definition twice_files : Files :=
  {| CATEGORIES_FILE := Content [Obj {["name" := Books]}];
     PRODUCTS_FILE := Content [dune_record; dune_record] |}.

(** Categories of the example, products that are not JSON. *)
Definition unreadable_products : Files :=
  {| CATEGORIES_FILE := Content [Obj {["name" := Books]}];
     PRODUCTS_FILE := Invalid |}.

(** ** Two claims as the specification words them *)

(** C1 as stated: when the record has no "stock" key, its category resolves
    and its name is not yet present, the product staged for it has
    stock 0. *)
Definition stock_defaults_to_zero (category_map : gmap value Z)
    (d : gmap string value) (w : World) : Prop :=
  ∀ cid,
    category_map !! dict_get d "category" = Some cid →
    (∀ p, p ∈ products (visible (db w)) → product_name p ≠ dict_get d "name") →
    d !! "stock" = None →
    ∃ name price,
      last (pending
              (db (load_products_body category_map (Obj d)
                     (0%nat, 0%nat) w).2)) =
        Some (ProductModel name price (VNum (Q2Qc 0)) cid).

(** C2 as stated: on the second run every category record is counted as
    existing and every product record as skipped. *)
Definition second_run_counts_every_record (af : bool) (fs : Files)
    (d : Database) : Prop :=
  ∀ cs ps,
    CATEGORIES_FILE fs = Content cs → PRODUCTS_FILE fs = Content ps →
    let out := output (main true af fs (final_store (main true af fs d))) in
    (INFO, CategoriesLoaded 0 (length cs)) ∈ out ∧
    (INFO, ProductsLoaded 0 (length ps)) ∈ out.

(** ** More example data *)

(** The store after the specification's first example. *)
Definition books_db : Database :=
  {| categories := [ {| category_id := 1; category_name := Books |} ];
     products := [ {| product_id := 1; product_name := Dune;
                      product_price := VNum (Q2Qc (31 # 2));
                      product_stock := VNum (Q2Qc 10);
                      product_category_id := 1 |} ] |}.

(** The world after [load_categories] on the specification's first
    example, the session autoflushing. *)
Definition books_world : World :=
  {| store := {| categories :=
                   [ {| category_id := 1; category_name := Books |} ];
                 products := [] |};
     db := {| autoflush := true;
              tx := {| categories :=
                         [ {| category_id := 1; category_name := Books |} ];
                       products := [] |};
              pending := []; closed := false; rolled_back := false |};
     logs := [(INFO, Starting); (INFO, ProcessingCategories 1);
              (INFO, CategoriesLoaded 1 0)] |}.

(** The fields of the record of the example. *)
Definition dune_fields : gmap string value :=
  <["name" := Dune]> (<["price" := VNum (Q2Qc (31 # 2))]>
    (<["stock" := VNum (Q2Qc 10)]> (<["category" := Books]> ∅))).

(** The record of the example without its "stock" key. *)
Definition dune_without_stock : gmap string value :=
  <["name" := Dune]> (<["price" := VNum (Q2Qc (31 # 2))]>
    (<["category" := Books]> ∅)).

(** The record of the example with another price and another stock. *)
Definition dune_repriced : gmap string value :=
  <["name" := Dune]> (<["price" := VNum (Q2Qc 99)]>
    (<["stock" := VNum (Q2Qc 0)]> (<["category" := Books]> ∅))).

(** A categories file whose second element is not an object: the category
    of the first element is flushed, then [.get] raises. *)
Definition broken_files : Files :=
  {| CATEGORIES_FILE := Content [Obj {["name" := Books]}; NonObj];
     PRODUCTS_FILE := Content [dune_record] |}.

(** The world in which that exception leaves the script. *)
Definition broken_world : World :=
  {| store := empty_db;
     db := {| autoflush := true;
              tx := {| categories :=
                         [ {| category_id := 1; category_name := Books |} ];
                       products := [] |};
              pending := []; closed := false; rolled_back := false |};
     logs := [(INFO, Starting); (INFO, ProcessingCategories 2)] |}.

(** A categories file whose only record has no name. *)
Definition nameless_files : Files :=
  {| CATEGORIES_FILE := Content [Obj ∅];
     PRODUCTS_FILE := Content [dune_record] |}.

(** * Properties *)

(** ** Weakest preconditions for the script's monad *)

Lemma wp_ret {A} (a : A) w Q E : Q a w → wp (mret a) w Q E.
Proof. done. Qed.

Lemma wp_raise {A} e w (Q : A → World → Prop) E : E e w → wp (raise e) w Q E.
Proof. done. Qed.

Lemma wp_bind {A B} (m : M A) (f : A → M B) w Q E :
  wp m w (λ a w', wp (f a) w' Q E) E → wp (m ≫= f) w Q E.
Proof. unfold wp, mbind, M_bind. by destruct (m w) as [[a|e] w']. Qed.

Lemma wp_mono {A} (m : M A) w (Q Q' : A → World → Prop) (E E' : _ → _ → Prop) :
  wp m w Q E →
  (∀ a w', Q a w' → Q' a w') → (∀ e w', E e w' → E' e w') →
  wp m w Q' E'.
Proof. unfold wp. destruct (m w) as [[a|e] w']; auto. Qed.

Lemma wp_Return {A} (m : M A) w Q E a w' :
  wp m w Q E → m w = (Return a, w') → Q a w'.
Proof. unfold wp. intros H Hm. by rewrite Hm in H. Qed.

Lemma wp_Raise {A} (m : M A) w Q E e w' :
  wp m w Q E → m w = (Raise e, w') → E e w'.
Proof. unfold wp. intros H Hm. by rewrite Hm in H. Qed.

(** The loop rule: the invariant is indexed by the elements already
    processed. *)
Lemma wp_for_each {A S} (I : list A → S → World → Prop) E
    (body : A → S → M S) (xs : list A) :
  (∀ pre x post acc w, xs = pre ++ x :: post → I pre acc w →
     wp (body x acc) w (I (pre ++ [x])) E) →
  ∀ acc w, I [] acc w → wp (for_each xs body acc) w (I xs) E.
Proof.
  intros Hbody.
  cut (∀ post pre acc w, xs = pre ++ post → I pre acc w →
         wp (for_each post body acc) w (I xs) E).
  { intros H acc w. by apply (H xs []). }
  induction post as [|x post IH]; intros pre acc w Hxs HI; simpl.
  - rewrite app_nil_r in Hxs. subst. by apply wp_ret.
  - apply wp_bind. eapply wp_mono; [by eapply Hbody| |done].
    intros acc' w' HI'. simpl. eapply IH; [|done].
    by rewrite <-(assoc_L (++)).
Qed.

(** ** The session: what a query sees and what a commit persists *)

Global Instance extends_preorder : PreOrder extends.
Proof.
  split.
  - by intros d.
  - intros d1 d2 d3 [??] [??]. split; by etrans.
Qed.

Lemma insert_row_extends d t : extends d (insert_row d t).
Proof. destruct t; split; simpl; try done; by apply prefix_app_r. Qed.

Lemma flush_rows_extends d ts : extends d (flush_rows d ts).
Proof.
  revert d. induction ts as [|t ts IH]; intros d; simpl; [done|].
  etrans; [apply insert_row_extends|apply IH].
Qed.

Lemma flush_rows_snoc d ts t :
  flush_rows d (ts ++ [t]) = insert_row (flush_rows d ts) t.
Proof. unfold flush_rows. by rewrite foldl_app. Qed.

Lemma flush_ids_snoc d ts t :
  flush_ids d (ts ++ [t]) = flush_ids d ts ++ [assigned_id (flush_rows d ts) t].
Proof.
  revert d. induction ts as [|t' ts IH]; intros d; simpl; [done|].
  by rewrite IH.
Qed.

Lemma view_autoflush s : view (session_autoflush s) = view s.
Proof. unfold session_autoflush, view. by destruct (autoflush s). Qed.

Lemma view_add t s : view (session_add t s) = insert_row (view s) t.
Proof. apply flush_rows_snoc. Qed.

Lemma visible_cases s : visible s = tx s ∨ visible s = view s.
Proof. unfold visible, session_autoflush. destruct (autoflush s); auto. Qed.

Lemma tx_extends_view s : extends (tx s) (view s).
Proof. apply flush_rows_extends. Qed.

Lemma visible_extends_view s : extends (visible s) (view s).
Proof. destruct (visible_cases s) as [-> | ->]; [apply tx_extends_view|done]. Qed.

Lemma tx_extends_visible s : extends (tx s) (visible s).
Proof. destruct (visible_cases s) as [-> | ->]; [done|apply tx_extends_view]. Qed.

Lemma session_eta s :
  pending s = [] →
  {| autoflush := autoflush s; tx := tx s; pending := []; closed := closed s;
     rolled_back := rolled_back s |}
  = s.
Proof. destruct s; simpl; by intros ->. Qed.

Lemma session_flush_clean s : pending s = [] → session_flush s = s.
Proof. intros H. unfold session_flush. rewrite H. simpl. by apply session_eta. Qed.

Lemma session_autoflush_clean s : pending s = [] → session_autoflush s = s.
Proof.
  intros H. unfold session_autoflush.
  destruct (autoflush s); [by apply session_flush_clean|done].
Qed.

Lemma session_autoflush_idemp s :
  session_autoflush (session_autoflush s) = session_autoflush s.
Proof.
  unfold session_autoflush at 2 3.
  destruct (autoflush s) eqn:H; [by apply session_autoflush_clean|].
  unfold session_autoflush. by rewrite H.
Qed.

Lemma world_eta w : {| store := store w; db := db w; logs := logs w |} = w.
Proof. by destruct w. Qed.

Lemma autoflush_autoflush s : autoflush (session_autoflush s) = autoflush s.
Proof. unfold session_autoflush. by destruct (autoflush s) eqn:?. Qed.

Lemma closed_autoflush s : closed (session_autoflush s) = closed s.
Proof. unfold session_autoflush. by destruct (autoflush s). Qed.

Lemma rolled_back_autoflush s :
  rolled_back (session_autoflush s) = rolled_back s.
Proof. unfold session_autoflush. by destruct (autoflush s). Qed.

(** Identifiers handed out by storage are new. *)
Lemma fresh_id_above ids i : i ∈ ids → i < fresh_id ids.
Proof.
  unfold fresh_id. induction ids as [|j ids IH]; [by intros ?%elem_of_nil|].
  intros [->|H]%elem_of_cons; simpl; [lia|]. specialize (IH H). lia.
Qed.

Lemma fresh_id_fresh ids : fresh_id ids ∉ ids.
Proof. intros H%fresh_id_above. lia. Qed.

(** [first()] finds a row if and only if some row matches. *)
Lemma find_None_iff {A} (f : A → bool) l :
  List.find f l = None ↔ ∀ x, x ∈ l → f x = false.
Proof.
  induction l as [|x l IH]; simpl.
  - split; [by intros _ x ?%elem_of_nil|done].
  - destruct (f x) eqn:Hx.
    + split; [done|]. intros H. specialize (H x (list_elem_of_here _ _)).
      congruence.
    + rewrite IH. split.
      * intros H y [->|?]%elem_of_cons; auto.
      * intros H y ?. apply H. by right.
Qed.

Lemma find_Some_elem {A} (f : A → bool) l x :
  List.find f l = Some x → x ∈ l ∧ f x = true.
Proof.
  intros H. apply find_some in H as [H ?]. by apply list_elem_of_In in H.
Qed.

(** ** One iteration of each loop *)

Lemma load_categories_body_Obj d m n e w :
  load_categories_body (Obj d) (m, n, e) w =
    let name := dict_get d "name" in
    if truthy name then
      match List.find (λ c, bool_decide (category_name c = name))
              (categories (visible (db w))) with
      | Some c =>
          (Return (<[name := category_id c]> m, n, S e),
           {| store := store w; db := session_autoflush (db w);
              logs := logs w |})
      | None =>
          (Return (<[name := fresh_id (category_id <$>
                                         categories (view (db w)))]> m,
                   S n, e),
           {| store := store w;
              db := {| autoflush := autoflush (db w);
                       tx := insert_row (view (db w)) (CategoryModel name);
                       pending := []; closed := closed (db w);
                       rolled_back := rolled_back (db w) |};
              logs := logs w |})
      end
    else (Return (m, n, e), w).
Proof.
  step_body. destruct (truthy _); simpl; [|done]. unfold visible.
  destruct (List.find _ _); simpl; [done|].
  rewrite flush_ids_snoc, List.last_last. unfold session_flush. simpl.
  rewrite flush_rows_snoc. fold (view (session_autoflush (db w))).
  by rewrite view_autoflush, autoflush_autoflush, closed_autoflush,
    rolled_back_autoflush.
Qed.

Lemma load_products_body_Obj category_map d n k w :
  load_products_body category_map (Obj d) (n, k) w =
    let category := dict_get d "category" in
    let name := dict_get d "name" in
    match category_map !! category with
    | None =>
        (Return (n, S k),
         log_line WARNING (CategoryNotFound category name) w)
    | Some cid =>
        match List.find (λ p, bool_decide (product_name p = name))
                (products (visible (db w))) with
        | Some _ =>
            (Return (n, S k),
             {| store := store w; db := session_autoflush (db w);
                logs := logs w |})
        | None =>
            (Return (S n, k),
             {| store := store w;
                db := session_add
                        (ProductModel name (dict_get d "price")
                           (dict_get d "stock") cid)
                        (session_autoflush (db w));
                logs := logs w |})
        end
    end.
Proof.
  step_body. destruct (category_map !! _) as [cid|] eqn:Hc.
  - rewrite bool_decide_eq_false_2
      by (intros H; apply H, elem_of_dom; eauto).
    simpl. unfold visible. by destruct (List.find _ _).
  - by rewrite bool_decide_eq_true_2 by (by apply not_elem_of_dom).
Qed.

(** C6. A product record whose category is not a key of the mapping is
    skipped: the body of the loop logs a warning naming the category and
    the product, counts the record as skipped, and leaves the session and
    the store as they were, so that no product is staged for it. *)
Theorem missing_category_skipped (category_map : gmap value Z)
    (d : gmap string value) (new_count skipped_count : nat) (w : World) :
  dict_get d "category" ∉ dom category_map →
  load_products_body category_map (Obj d) (new_count, skipped_count) w =
    (Return (new_count, S skipped_count),
     log_line WARNING
       (CategoryNotFound (dict_get d "category") (dict_get d "name")) w).
Proof.
  intros H. step_body. by rewrite bool_decide_eq_true_2.
Qed.

Lemma missing_category_skipped_witness :
  load_products_body {[ Toys := 1 ]} dune_record (0%nat, 0%nat)
    (connected true empty_db) =
    (Return (0%nat, 1%nat),
     log_line WARNING (CategoryNotFound Books Dune) (connected true empty_db)).
Proof.
  apply (missing_category_skipped {[ Toys := 1 ]}).
  vm_compute. set_solver.
Defined.

(** One record of the categories file.  Without a non-empty name the
    record is passed over: no counter moves and the world is untouched.
    With a name that no category visible to the query carries, a category
    is created and flushed: its row, under an identifier no other row has,
    is in the transaction while the store is still uncommitted, and "new"
    is incremented.  With a name some visible category carries, "existing"
    is incremented and nothing is created.  In both cases the mapping
    binds the name to the identifier, replacing any earlier binding. *)
Lemma load_categories_body_spec (d : gmap string value)
    (category_map : gmap value Z) (new_count existing_count : nat)
    (w : World) :
  let name := dict_get d "name" in
  let acc := (category_map, new_count, existing_count) in
  (truthy name = false →
     load_categories_body (Obj d) acc w = (Return acc, w)) ∧
  (truthy name = true →
     (∀ c, c ∈ categories (visible (db w)) → category_name c ≠ name) →
     ∃ id w',
       load_categories_body (Obj d) acc w =
         (Return (<[name := id]> category_map, S new_count, existing_count),
          w') ∧
       categories (tx (db w')) =
         categories (view (db w)) ++
           [ {| category_id := id; category_name := name |} ] ∧
       (id ∉ category_id <$> categories (view (db w))) ∧
       pending (db w') = [] ∧ store w' = store w ∧ logs w' = logs w) ∧
  (truthy name = true →
     ∀ c, c ∈ categories (visible (db w)) → category_name c = name →
     ∃ c', c' ∈ categories (visible (db w)) ∧ category_name c' = name ∧
       load_categories_body (Obj d) acc w =
         (Return (<[name := category_id c']> category_map,
                  new_count, S existing_count),
          {| store := store w; db := session_autoflush (db w);
             logs := logs w |})) ∧
  (∀ id, <[name := id]> category_map !! name = Some id).
Proof.
  intros name acc. subst acc. rewrite load_categories_body_Obj. cbv zeta.
  change (dict_get d "name") with name. split_and!.
  - by intros ->.
  - intros -> Hnone.
    assert (List.find (λ c, bool_decide (category_name c = name))
              (categories (visible (db w))) = None) as ->.
    { apply find_None_iff. intros c Hc. apply bool_decide_eq_false_2. auto. }
    eexists _, _. split_and!; try done. apply fresh_id_fresh.
  - intros -> c Hc Hname.
    destruct (List.find _ _) as [c'|] eqn:Hfind.
    + apply find_Some_elem in Hfind as [? ?%bool_decide_eq_true_1]. eauto.
    + apply find_None_iff with (x := c) in Hfind; [|done].
      by apply bool_decide_eq_false_1 in Hfind.
  - intros id. apply lookup_insert_eq.
Qed.

Lemma stock_defaults_to_zero_counterexample :
  pending (db (load_products_body {[ Books := 1 ]} (Obj dune_without_stock)
                 (0%nat, 0%nat) (connected true empty_db)).2) =
    [ProductModel Dune (VNum (Q2Qc (31 # 2))) VNone 1] ∧
  ¬ stock_defaults_to_zero {[ Books := 1 ]} dune_without_stock
      (connected true empty_db).
Proof.
  split; [reflexivity|].
  intros H. destruct (H 1) as (name & price & Hlast).
  - reflexivity.
  - by intros p ?%elem_of_nil.
  - reflexivity.
  - change (Some (ProductModel Dune (VNum (Q2Qc (31 # 2))) VNone 1) =
            Some (ProductModel name price (VNum (Q2Qc 0)) 1)) in Hlast.
    discriminate Hlast.
Qed.

(** C1, amended. The product staged for a record whose category resolves
    and whose name is not yet present carries the record's fields as
    [.get] returns them, whatever the record holds: its stock is the
    record's "stock" when the key is present and [None], not 0, when it is
    absent.  The record is counted as new and nothing is written to the
    store before the commit. *)
Theorem staged_product_fields (category_map : gmap value Z)
    (d : gmap string value) (new_count skipped_count : nat) (w : World)
    (cid : Z) :
  category_map !! dict_get d "category" = Some cid →
  (∀ p, p ∈ products (visible (db w)) → product_name p ≠ dict_get d "name") →
  ∃ w',
    load_products_body category_map (Obj d) (new_count, skipped_count) w =
      (Return (S new_count, skipped_count), w') ∧
    pending (db w') =
      pending (session_autoflush (db w)) ++
        [ProductModel (dict_get d "name") (dict_get d "price")
           (dict_get d "stock") cid] ∧
    (d !! "stock" = None →
     pending (db w') =
       pending (session_autoflush (db w)) ++
         [ProductModel (dict_get d "name") (dict_get d "price") VNone cid]) ∧
    (∀ stock, d !! "stock" = Some stock →
     pending (db w') =
       pending (session_autoflush (db w)) ++
         [ProductModel (dict_get d "name") (dict_get d "price") stock cid]) ∧
    tx (db w') = visible (db w) ∧
    store w' = store w.
Proof.
  intros Hc Hnone. rewrite load_products_body_Obj. simpl. rewrite Hc.
  assert (List.find (λ p, bool_decide (product_name p = dict_get d "name"))
            (products (visible (db w))) = None) as ->.
  { apply find_None_iff. intros p Hp. apply bool_decide_eq_false_2. auto. }
  eexists. split; [done|]. simpl. split_and!; try done.
  - intros Hstock. unfold dict_get at 3. by rewrite Hstock.
  - intros stock Hstock. unfold dict_get at 3. by rewrite Hstock.
Qed.

Lemma staged_product_fields_witness :
  (∃ w',
     load_products_body {[ Books := 1 ]} (Obj dune_without_stock)
       (0%nat, 0%nat) (connected true empty_db) =
       (Return (1%nat, 0%nat), w') ∧
     pending (db w') =
       [ProductModel Dune (VNum (Q2Qc (31 # 2))) VNone 1] ∧
     tx (db w') = empty_db ∧
     store w' = empty_db) ∧
  (∃ w',
     load_products_body {[ Books := 1 ]} (Obj dune_fields)
       (0%nat, 0%nat) (connected true empty_db) =
       (Return (1%nat, 0%nat), w') ∧
     pending (db w') =
       [ProductModel Dune (VNum (Q2Qc (31 # 2))) (VNum (Q2Qc 10)) 1]).
Proof.
  split.
  - destruct (staged_product_fields {[ Books := 1 ]} dune_without_stock 0 0
                (connected true empty_db) 1)
      as (w' & H1 & _ & H2 & _ & H3 & H4).
    + reflexivity.
    + by intros p ?%elem_of_nil.
    + exists w'. split_and!; try done. by apply H2.
  - destruct (staged_product_fields {[ Books := 1 ]} dune_fields 0 0
                (connected true empty_db) 1)
      as (w' & H1 & _ & _ & H2 & _).
    + reflexivity.
    + by intros p ?%elem_of_nil.
    + exists w'. split; [done|]. by apply (H2 (VNum (Q2Qc 10))).
Defined.

(** ** The loop of [load_categories] *)

Lemma names_snoc rs r : names (rs ++ [r]) = names rs ++ names [r].
Proof. apply omap_app. Qed.

Lemma Forall_is_obj_middle pre post : ¬ Forall is_obj (pre ++ NonObj :: post).
Proof.
  intros [_ H]%Forall_app. apply Forall_cons in H as [H _]. done.
Qed.

Lemma load_categories_body_inv w0 m0 n0 e0 pre x acc w :
  categories_inv w0 m0 n0 e0 pre acc w →
  wp (load_categories_body x acc) w (categories_inv w0 m0 n0 e0 (pre ++ [x]))
     (λ _ w', store w' = store w0 ∧ x = NonObj).
Proof.
  destruct acc as [[m n] e].
  intros (Hst & Hlg & Haf & Hcl & Hpe & Hpre & Hpr & Hobj & Hdom & Hval
          & Hnm & Hcnt).
  destruct x as [d|]; [|by step_body].
  unfold wp. rewrite load_categories_body_Obj. cbv zeta.
  unfold visible, view. rewrite (session_autoflush_clean _ Hpe), Hpe. simpl.
  assert (Hobj' : Forall is_obj (pre ++ [Obj d])).
  { apply Forall_app. split; [done|]. by repeat constructor. }
  unfold categories_inv. rewrite names_snoc. simpl.
  destruct (truthy (dict_get d "name")) eqn:Htr; simpl.
  - destruct (List.find _ _) as [c|] eqn:Hfind; simpl.
    + apply find_Some_elem in Hfind as [Hc Hname%bool_decide_eq_true_1].
      split_and!; try done.
      * rewrite dom_insert_L, Hdom, list_to_set_app_L. set_solver.
      * intros k i. rewrite lookup_insert. case_decide; [|by auto].
        intros [= <-]. right. apply list_elem_of_fmap. eauto.
      * intros k [?| ->%list_elem_of_singleton]%elem_of_app; [by auto|].
        apply list_elem_of_fmap. eauto.
      * rewrite length_app. simpl. lia.
    + split_and!; try done.
      * by apply prefix_app_r.
      * rewrite dom_insert_L, Hdom, list_to_set_app_L. set_solver.
      * intros k i. rewrite lookup_insert. unfold category_ids. simpl.
        rewrite fmap_app, elem_of_app. case_decide.
        -- intros [= <-]. right. right. simpl. apply list_elem_of_here.
        -- intros [?|?]%Hval; auto.
      * intros k. unfold category_names. simpl.
        rewrite fmap_app, !elem_of_app. simpl.
        intros [?%Hnm|?]; auto.
      * rewrite length_app. simpl. lia.
  - rewrite app_nil_r. by split_and!.
Qed.

Lemma load_categories_loop w0 m0 n0 e0 cs :
  pending (db w0) = [] →
  wp (for_each cs load_categories_body (m0, n0, e0)) w0
     (categories_inv w0 m0 n0 e0 cs)
     (λ _ w', store w' = store w0 ∧ ¬ Forall is_obj cs).
Proof.
  intros Hpe. apply wp_for_each.
  - intros pre x post acc w -> HI.
    eapply wp_mono; [by apply load_categories_body_inv|done|].
    intros _ w' [? ->]. split; [done|]. apply Forall_is_obj_middle.
  - unfold categories_inv. simpl. split_and!; try done.
    + set_solver.
    + by auto.
    + by intros k ?%elem_of_nil.
Qed.

Lemma names_truthy rs k : k ∈ names rs → truthy k = true.
Proof.
  unfold names. rewrite list_elem_of_omap. intros ([d|] & _ & H); [|done].
  destruct (truthy (dict_get d "name")) eqn:Ht; by simplify_eq.
Qed.

Lemma clean_connected af d : clean (connected af d).
Proof. done. Qed.

Lemma load_categories_clean fs w0 :
  clean w0 →
  wp (load_categories fs) w0
    (λ m w,
       clean w ∧ autoflush (db w) = autoflush (db w0) ∧
       closed (db w) = closed (db w0) ∧
       categories (store w0) `prefix_of` categories (store w) ∧
       products (store w) = products (store w0) ∧
       (∀ k i, m !! k = Some i → i ∈ category_ids (store w)) ∧
       match CATEGORIES_FILE fs with
       | Absent => m = ∅ ∧ store w = store w0
       | Invalid => False
       | Content cs =>
           Forall is_obj cs ∧ dom m = list_to_set (names cs) ∧
           (∀ k, k ∈ names cs → k ∈ category_names (store w)) ∧
           ∃ n e,
             logs w = logs w0 ++ [(INFO, ProcessingCategories (length cs));
                                  (INFO, CategoriesLoaded n e)] ∧
             (n + e = length (names cs))%nat
       end)
    (λ _ w,
       store w = store w0 ∧
       match CATEGORIES_FILE fs with
       | Absent => False
       | Invalid => True
       | Content cs => ¬ Forall is_obj cs
       end).
Proof.
  intros [Hpe Htx]. unfold load_categories.
  destruct (CATEGORIES_FILE fs) as [| |cs]; simpl.
  - unfold wp. simpl. by split_and!.
  - by unfold wp.
  - apply wp_bind, wp_ret, wp_bind. unfold wp at 1. simpl.
    apply wp_bind.
    eapply wp_mono;
      [apply (load_categories_loop
                (log_line INFO (ProcessingCategories (length cs)) w0) ∅ 0 0 cs
                Hpe)| |].
    + intros [[m n] e] w
        (Hst & Hlg & Haf & Hcl & Hpe' & Hpre & Hpr & Hobj & Hdom & Hval
         & Hnm & Hcnt).
      simpl in *. unfold wp, db_commit, logger, log_line, mbind, M_bind. simpl.
      unfold clean. simpl. rewrite Hpe'. simpl.
      rewrite <-Htx. split_and!; try done.
      * intros k i [?%lookup_empty_Some|?]%Hval; done.
      * rewrite Hdom. set_solver.
      * exists n, e. split; [|done]. rewrite Hlg. by rewrite <-(assoc_L (++)).
    + intros _ w [? ?]. done.
Qed.

(** ** The loop of [load_products] *)

Lemma extends_products d d' p :
  extends d d' → p ∈ products d → p ∈ products d'.
Proof. intros [_ [l ->]] ?. apply elem_of_app. by left. Qed.

Lemma extends_categories d d' c :
  extends d d' → c ∈ categories d → c ∈ categories d'.
Proof. intros [[l ->] _] ?. apply elem_of_app. by left. Qed.

Lemma extends_product_names d d' k :
  extends d d' → k ∈ product_names d → k ∈ product_names d'.
Proof.
  unfold product_names. intros [_ [l ->]] ?. rewrite fmap_app.
  apply elem_of_app. by left.
Qed.

Lemma load_products_body_inv w0 category_map pre x acc w :
  products_inv w0 category_map pre acc w →
  wp (load_products_body category_map x acc) w
     (products_inv w0 category_map (pre ++ [x]))
     (λ _ w', store w' = store w0 ∧ x = NonObj).
Proof.
  destruct acc as [n k].
  intros (Hst & Haf & Hcl & Hext & Hcat & Hobj & Hskip & Horig).
  destruct x as [d|]; [|by step_body].
  unfold wp. rewrite load_products_body_Obj. cbv zeta.
  assert (Hobj' : Forall is_obj (pre ++ [Obj d])).
  { apply Forall_app. split; [done|]. by repeat constructor. }
  unfold products_inv.
  destruct (category_map !! dict_get d "category") as [cid|] eqn:Hc; simpl.
  - destruct (List.find _ _) as [p|] eqn:Hfind; simpl.
    + apply find_Some_elem in Hfind as [Hp Hname%bool_decide_eq_true_1].
      rewrite view_autoflush, autoflush_autoflush, closed_autoflush.
      split_and!; try done.
      intros d' [?| [= ->]%list_elem_of_singleton]%elem_of_app;
        [by auto|]. right. rewrite <-Hname.
      apply list_elem_of_fmap. eexists; split; [done|].
      eapply extends_products; [apply visible_extends_view|done].
    + rewrite view_add, view_autoflush, autoflush_autoflush,
        closed_autoflush.
      split_and!; try done.
      * etrans; [done|]. apply insert_row_extends.
      * intros d' [Hd'| [= ->]%list_elem_of_singleton]%elem_of_app.
        -- destruct (Hskip d' Hd') as [?|?]; [by left|right].
           eapply extends_product_names; [apply insert_row_extends|done].
        -- right. unfold product_names. simpl.
           rewrite fmap_app, elem_of_app. right. simpl.
           apply list_elem_of_here.
      * simpl. intros p [?| ->%list_elem_of_singleton]%elem_of_app;
          [by auto|]. simpl. eauto.
  - split_and!; try done.
    intros d' [?| [= ->]%list_elem_of_singleton]%elem_of_app; [by auto|].
    left. by apply not_elem_of_dom.
Qed.

Lemma load_products_loop w0 category_map ps n0 k0 :
  wp (for_each ps (load_products_body category_map) (n0, k0)) w0
     (products_inv w0 category_map ps)
     (λ _ w', store w' = store w0 ∧ ¬ Forall is_obj ps).
Proof.
  apply wp_for_each.
  - intros pre x post acc w -> HI.
    eapply wp_mono; [by apply load_products_body_inv|done|].
    intros _ w' [? ->]. split; [done|]. apply Forall_is_obj_middle.
  - unfold products_inv. split_and!; try done.
    + by intros d ?%elem_of_nil.
    + by auto.
Qed.

Lemma load_products_spec fs category_map w0 :
  wp (load_products fs category_map) w0
    (λ _ w,
       autoflush (db w) = autoflush (db w0) ∧
       closed (db w) = closed (db w0) ∧
       match PRODUCTS_FILE fs with
       | Absent => store w = store w0 ∧ db w = db w0
       | Invalid => False
       | Content ps =>
           Forall is_obj ps ∧ clean w ∧
           extends (view (db w0)) (store w) ∧
           categories (store w) = categories (view (db w0)) ∧
           (∀ d, Obj d ∈ ps →
              dict_get d "category" ∉ dom category_map ∨
              dict_get d "name" ∈ product_names (store w)) ∧
           (∀ p, p ∈ products (store w) →
              p ∈ products (view (db w0)) ∨
              ∃ k, category_map !! k = Some (product_category_id p))
       end)
    (λ _ w,
       store w = store w0 ∧
       match PRODUCTS_FILE fs with
       | Absent => False
       | Invalid => True
       | Content ps => ¬ Forall is_obj ps
       end).
Proof.
  unfold load_products.
  destruct (PRODUCTS_FILE fs) as [| |ps]; simpl.
  - unfold wp. simpl. by split_and!.
  - by unfold wp.
  - apply wp_bind, wp_ret, wp_bind. unfold wp at 1. simpl.
    apply wp_bind.
    eapply wp_mono;
      [apply (load_products_loop
                (log_line INFO (ProcessingProducts (length ps)) w0)
                category_map ps 0 0)| |].
    + intros [n k] w (Hst & Haf & Hcl & Hext & Hcat & Hobj & Hskip & Horig).
      simpl in *. unfold wp, db_commit, logger, log_line, mbind, M_bind. simpl.
      unfold clean. simpl. fold (view (db w)). by split_and!.
    + intros _ w [? ?]. done.
Qed.

(** The keys of the mapping [load_categories] returns are non-empty names,
    whatever the session it was given. *)
Lemma load_categories_keys fs w :
  wp (load_categories fs) w
     (λ m _, ∀ k, k ∈ dom m → truthy k = true) (λ _ _, True).
Proof.
  unfold load_categories.
  destruct (CATEGORIES_FILE fs) as [| |cs]; simpl.
  - unfold wp. simpl. by intros k ?%elem_of_empty.
  - by unfold wp.
  - apply wp_bind, wp_ret, wp_bind. unfold wp at 1. simpl. apply wp_bind.
    eapply wp_mono;
      [apply (wp_for_each
         (λ _ (acc : gmap value Z * nat * nat) _,
            ∀ k, k ∈ dom acc.1.1 → truthy k = true) (λ _ _, True))| |done].
    + intros pre [d|] post [[m n] e] w' _ HI; [|by step_body].
      unfold wp. rewrite load_categories_body_Obj. cbv zeta.
      destruct (truthy (dict_get d "name")) eqn:Htr; [|done].
      destruct (List.find _ _); simpl; intros k;
        rewrite dom_insert_L, elem_of_union, elem_of_singleton;
        intros [->|?]; auto.
    + simpl. by intros k ?%elem_of_empty.
    + by intros [[m n] e] w' HI.
Qed.

(** C10. A product record without a "category" key, or with a null one,
    fares like one naming an unknown category: [.get] yields [None], no
    mapping returned by [load_categories] has [None] among its keys, and the
    record is skipped with a warning, counted as skipped and not staged. *)
Theorem absent_category_skipped (fs : Files) (w0 w1 : World)
    (category_map : gmap value Z) (d : gmap string value)
    (new_count skipped_count : nat) (w : World) :
  load_categories fs w0 = (Return category_map, w1) →
  d !! "category" = None ∨ d !! "category" = Some VNone →
  dict_get d "category" = VNone ∧
  (VNone ∉ dom category_map) ∧
  load_products_body category_map (Obj d) (new_count, skipped_count) w =
    (Return (new_count, S skipped_count),
     log_line WARNING (CategoryNotFound VNone (dict_get d "name")) w).
Proof.
  intros Hload Hd.
  assert (Hget : dict_get d "category" = VNone).
  { unfold dict_get. by destruct Hd as [-> | ->]. }
  assert (Hkey : VNone ∉ dom category_map).
  { intros Hin.
    by apply (wp_Return _ _ _ _ _ _ (load_categories_keys fs w0) Hload) in Hin. }
  split_and!; try done.
  rewrite load_products_body_Obj. cbv zeta. rewrite Hget.
  by apply not_elem_of_dom in Hkey as ->.
Qed.

Lemma absent_category_skipped_witness :
  let d : gmap string value := {[ "name" := Dune ]} in
  load_categories books_files (connected true empty_db)
    = (Return {[ Books := 1 ]}, books_world) ∧
  dict_get d "category" = VNone ∧
  (VNone ∉ dom ({[ Books := 1 ]} : gmap value Z)) ∧
  load_products_body {[ Books := 1 ]} (Obj d) (0%nat, 0%nat) books_world =
    (Return (0%nat, 1%nat),
     log_line WARNING (CategoryNotFound VNone Dune) books_world).
Proof.
  assert (H : load_categories books_files (connected true empty_db)
              = (Return {[ Books := 1 ]}, books_world))
    by reflexivity.
  split; [exact H|].
  refine (absent_category_skipped books_files (connected true empty_db)
            books_world {[ Books := 1 ]} {[ "name" := Dune ]} 0 0 books_world
            H _).
  left. reflexivity.
Defined.

(** ** A run over records that are all in the store already *)

Lemma names_cons_Obj d rs :
  names (Obj d :: rs) =
    if truthy (dict_get d "name") then dict_get d "name" :: names rs
    else names rs.
Proof. unfold names. simpl. by destruct (truthy _). Qed.

Lemma load_categories_loop_present cs : ∀ m n e w,
  pending (db w) = [] →
  Forall is_obj cs →
  (∀ k, k ∈ names cs → k ∈ category_names (tx (db w))) →
  ∃ m',
    for_each cs load_categories_body (m, n, e) w =
      (Return (m', n, (e + length (names cs))%nat), w).
Proof.
  induction cs as [|[d|] cs IH]; intros m n e w Hpe Hobj Hnm; cbn [for_each].
  - exists m. simpl. by rewrite Nat.add_0_r.
  - apply Forall_cons in Hobj as [_ Hobj]. rewrite names_cons_Obj in Hnm.
    unfold mbind, M_bind. rewrite load_categories_body_Obj. cbv zeta.
    unfold visible. rewrite (session_autoflush_clean _ Hpe), world_eta.
    rewrite names_cons_Obj.
    destruct (truthy (dict_get d "name")) eqn:Htr.
    + destruct (List.find _ _) as [c|] eqn:Hfind.
      * destruct (IH (<[dict_get d "name" := category_id c]> m) n (S e) w)
          as [m' ->]; [done|done| |].
        { intros k ?. apply Hnm. by right. }
        exists m'. simpl. do 3 f_equal. lia.
      * exfalso. specialize (Hnm _ (list_elem_of_here _ _)).
        apply list_elem_of_fmap in Hnm as (c & Hname & Hc).
        apply find_None_iff with (x := c) in Hfind; [|done].
        by apply bool_decide_eq_false_1 in Hfind.
    + by apply IH.
  - by apply Forall_cons in Hobj as [? _].
Qed.

Lemma load_categories_present fs cs w :
  clean w →
  CATEGORIES_FILE fs = Content cs →
  Forall is_obj cs →
  (∀ k, k ∈ names cs → k ∈ category_names (store w)) →
  ∃ m,
    load_categories fs w =
      (Return m,
       log_line INFO (CategoriesLoaded 0 (length (names cs)))
         (log_line INFO (ProcessingCategories (length cs)) w)) ∧
    dom m = list_to_set (names cs).
Proof.
  intros [Hpe Htx] Hf Hobj Hnm.
  assert (∃ m, load_categories fs w =
      (Return m,
       log_line INFO (CategoriesLoaded 0 (length (names cs)))
         (log_line INFO (ProcessingCategories (length cs)) w)))
    as [m Hm].
  { unfold load_categories. rewrite Hf. simpl.
    unfold mbind at 1, M_bind at 1. simpl.
    unfold mbind at 1, M_bind at 1. simpl.
    unfold mbind at 1, M_bind at 1.
    destruct (load_categories_loop_present cs ∅ 0 0
                (log_line INFO (ProcessingCategories (length cs)) w))
      as [m ->]; [done|done|by rewrite <-Htx in Hnm|].
    exists m. simpl. unfold db_commit, logger, log_line, mbind, M_bind. simpl.
    rewrite (session_flush_clean _ Hpe), Hpe. simpl. by rewrite Htx. }
  exists m. split; [done|].
  pose proof (wp_Return _ _ _ _ _ _
                (load_categories_clean fs w (conj Hpe Htx)) Hm) as H.
  rewrite Hf in H. by destruct H as (_ & _ & _ & _ & _ & _ & _ & ? & _).
Qed.

Lemma load_products_loop_present category_map ps : ∀ n k w,
  pending (db w) = [] →
  Forall is_obj ps →
  (∀ d, Obj d ∈ ps →
     dict_get d "category" ∉ dom category_map ∨
     dict_get d "name" ∈ product_names (tx (db w))) →
  for_each ps (load_products_body category_map) (n, k) w =
    (Return (n, (k + length ps)%nat),
     {| store := store w; db := db w;
        logs := logs w ++ warnings (dom category_map) ps |}).
Proof.
  induction ps as [|[d|] ps IH]; intros n k w Hpe Hobj Hskip; cbn [for_each].
  - simpl. rewrite Nat.add_0_r, app_nil_r. by destruct w.
  - apply Forall_cons in Hobj as [_ Hobj].
    unfold mbind, M_bind. rewrite load_products_body_Obj. cbv zeta.
    unfold visible. rewrite (session_autoflush_clean _ Hpe), world_eta.
    unfold warnings. simpl. fold (warnings (dom category_map) ps).
    destruct (category_map !! dict_get d "category") as [cid|] eqn:Hc.
    + rewrite bool_decide_eq_true_2 by (apply elem_of_dom; eauto).
      destruct (List.find _ _) as [p|] eqn:Hfind.
      * rewrite IH; [|done|done|]. { do 3 f_equal. lia. }
        intros d' ?. apply Hskip. by right.
      * exfalso. destruct (Hskip d (list_elem_of_here _ _)) as [Hn|Hn].
        { apply Hn, elem_of_dom. eauto. }
        apply list_elem_of_fmap in Hn as (p & Hname & Hp).
        apply find_None_iff with (x := p) in Hfind; [|done].
        by apply bool_decide_eq_false_1 in Hfind.
    + rewrite bool_decide_eq_false_2 by (by apply not_elem_of_dom).
      rewrite IH; [|done|done|].
      { simpl. rewrite <-(assoc_L (++)). simpl. do 3 f_equal. lia. }
      intros d' ?. apply Hskip. by right.
  - by apply Forall_cons in Hobj as [? _].
Qed.

Lemma load_products_present fs category_map ps w :
  clean w →
  PRODUCTS_FILE fs = Content ps →
  Forall is_obj ps →
  (∀ d, Obj d ∈ ps →
     dict_get d "category" ∉ dom category_map ∨
     dict_get d "name" ∈ product_names (store w)) →
  load_products fs category_map w =
    (Return (),
     {| store := store w; db := db w;
        logs := logs w ++ [(INFO, ProcessingProducts (length ps))] ++
                warnings (dom category_map) ps ++
                [(INFO, ProductsLoaded 0 (length ps))] |}).
Proof.
  intros [Hpe Htx] Hf Hobj Hskip.
  unfold load_products. rewrite Hf. simpl.
  unfold mbind at 1, M_bind at 1. simpl.
  unfold mbind at 1, M_bind at 1. simpl.
  unfold mbind at 1, M_bind at 1.
  rewrite load_products_loop_present;
    [|done|done|by rewrite <-Htx in Hskip].
  simpl. unfold db_commit, logger, log_line, mbind, M_bind. simpl.
  rewrite (session_flush_clean _ Hpe), Hpe. simpl. rewrite Htx.
  by rewrite <-!(assoc_L (++)).
Qed.

(** ** Orchestration: exit status, exceptions, missing files *)

Lemma bind_Return {A B} (m : M A) (f : A → M B) w a w' :
  m w = (Return a, w') → (m ≫= f) w = f a w'.
Proof. intros H. unfold mbind, M_bind. by rewrite H. Qed.

Lemma bind_Raise {A B} (m : M A) (f : A → M B) w e w' :
  m w = (Raise e, w') → (m ≫= f) w = (Raise e, w').
Proof. intros H. unfold mbind, M_bind. by rewrite H. Qed.

Lemma loading_Return fs w u w1 :
  loading_body fs w = (Return u, w1) →
  loading fs w =
    (Return (), {| store := store w1; db := closed_session w1;
                   logs := logs w1 |}).
Proof. intros H. unfold loading, try_except_finally. by rewrite H. Qed.

Lemma loading_Raise fs w e w1 :
  loading_body fs w = (Raise e, w1) →
  loading fs w =
    (Return (), {| store := store w1; db := rolled_back_session w1;
                   logs := logs w1 ++ [(ERROR, ErrorOccurred e)] |}).
Proof. intros H. unfold loading, try_except_finally. by rewrite H. Qed.

Lemma loading_body_Raise fs w e w1 :
  loading_body fs w = (Raise e, w1) ↔
  load_categories fs w = (Raise e, w1) ∨
  ∃ category_map w', load_categories fs w = (Return category_map, w') ∧
    category_map ≠ ∅ ∧ load_products fs category_map w' = (Raise e, w1).
Proof.
  unfold loading_body, mbind, M_bind.
  destruct (load_categories fs w) as [[m|e'] w'] eqn:Hc.
  - case_bool_decide as Hm.
    + split; [intros H; right; eauto|].
      intros [?|(m' & w'' & ? & ? & ?)]; [done|]. by simplify_eq.
    + split; [by unfold logger|].
      intros [?|(m' & w'' & ? & ? & ?)]; [done|]. by simplify_eq.
  - split; [intros H; left; by simplify_eq|].
    intros [?|(m' & w'' & ? & ? & ?)]; by simplify_eq.
Qed.

Lemma main_Return af fs d u w1 :
  loading_body fs (connected af d) = (Return u, w1) →
  main true af fs d =
    {| exit_code := 0; final_store := store w1;
       session := Some (closed_session w1);
       output := logs w1 ++ [(INFO, Completed)] |}.
Proof.
  intros H. unfold main. cbn [negb].
  by rewrite (bind_Return _ _ _ _ _ (loading_Return _ _ _ _ H)).
Qed.

Lemma main_Raise af fs d e w1 :
  loading_body fs (connected af d) = (Raise e, w1) →
  main true af fs d =
    {| exit_code := 0; final_store := store w1;
       session := Some (rolled_back_session w1);
       output := logs w1 ++ [(ERROR, ErrorOccurred e); (INFO, Completed)] |}.
Proof.
  intros H. unfold main. cbn [negb].
  rewrite (bind_Return _ _ _ _ _ (loading_Raise _ _ _ _ H)). simpl.
  by rewrite <-(assoc_L (++)).
Qed.

(** C9. [main] exits with status 1 exactly when the connectivity check
    fails; whenever the check succeeds it terminates with status 0, whatever
    the files and the store hold (records skipped, exception caught). *)
Theorem main_exit_code (check_connection af : bool) (fs : Files)
    (d : Database) :
  (exit_code (main check_connection af fs d) = 1 ↔ check_connection = false) ∧
  (check_connection = true → exit_code (main check_connection af fs d) = 0).
Proof.
  destruct check_connection.
  - destruct (loading_body fs (connected af d)) as [[u|e] w1] eqn:Hb.
    + by rewrite (main_Return _ _ _ _ _ Hb).
    + by rewrite (main_Raise _ _ _ _ _ Hb).
  - by split.
Qed.

Lemma main_exit_code_witness :
  exit_code (main true false toys_files books_db) = 0 ∧
  exit_code (main true true broken_files empty_db) = 0 ∧
  exit_code (main false true books_files empty_db) = 1.
Proof.
  split_and!.
  - by apply (proj2 (main_exit_code true false toys_files books_db)).
  - by apply (proj2 (main_exit_code true true broken_files empty_db)).
  - by apply (proj1 (main_exit_code false true books_files empty_db)).
Defined.

(** C8. When [load_categories] or [load_products] raises [e], leaving the
    world [w1], [main] logs the error, calls [rollback] on the session
    (the session ends marked as rolled back, holding the committed store
    and nothing pending), closes it, logs the final "completed" line and
    terminates normally with status 0.  On every run that passes the
    connectivity check the session ends closed, the last line logged is
    "completed" and the status is 0. *)
Theorem main_catches_exceptions (af : bool) (fs : Files) (d : Database) :
  (∀ e w1,
     load_categories fs (connected af d) = (Raise e, w1) ∨
     (∃ category_map w',
        load_categories fs (connected af d) = (Return category_map, w') ∧
        category_map ≠ ∅ ∧
        load_products fs category_map w' = (Raise e, w1)) →
     main true af fs d =
       {| exit_code := 0;
          final_store := store w1;
          session := Some {| autoflush := autoflush (db w1); tx := store w1;
                             pending := []; closed := true;
                             rolled_back := true |};
          output := logs w1 ++
                    [(ERROR, ErrorOccurred e); (INFO, Completed)] |}) ∧
  (∃ s, session (main true af fs d) = Some s ∧ closed s = true ∧
        pending s = [] ∧ tx s = final_store (main true af fs d)) ∧
  last (output (main true af fs d)) = Some (INFO, Completed) ∧
  exit_code (main true af fs d) = 0.
Proof.
  split.
  - intros e w1 H%loading_body_Raise. by rewrite (main_Raise _ _ _ _ _ H).
  - destruct (loading_body fs (connected af d)) as [[u|e] w1] eqn:Hb.
    + rewrite (main_Return _ _ _ _ _ Hb). simpl.
      split; [eauto|]. by rewrite last_snoc.
    + rewrite (main_Raise _ _ _ _ _ Hb). simpl.
      split; [eauto|]. by rewrite last_app_cons.
Qed.

Lemma main_catches_exceptions_witness :
  load_categories broken_files (connected true empty_db)
    = (Raise AttributeError, broken_world) ∧
  main true true broken_files empty_db =
      {| exit_code := 0;
         final_store := empty_db;
         session := Some {| autoflush := true; tx := empty_db;
                            pending := []; closed := true;
                            rolled_back := true |};
         output := [(INFO, Starting); (INFO, ProcessingCategories 2);
                    (ERROR, ErrorOccurred AttributeError);
                    (INFO, Completed)] |}.
Proof.
  split; [reflexivity|].
  apply (proj1 (main_catches_exceptions true broken_files empty_db)
           AttributeError broken_world).
  left. reflexivity.
Defined.

(** C7. Without a categories file [load_categories] logs an error and
    returns the empty mapping, the world otherwise untouched, and [main]
    then logs that product loading is skipped and completes, whatever the
    products file is; without a products file [load_products] logs an error
    and returns, the store and the session untouched. *)
Theorem missing_files (fs : Files) :
  (CATEGORIES_FILE fs = Absent →
     (∀ w, load_categories fs w =
             (Return ∅, log_line ERROR CategoriesFileNotFound w)) ∧
     (∀ af d, main true af fs d =
        {| exit_code := 0;
           final_store := d;
           session := Some {| autoflush := af; tx := d; pending := [];
                              closed := true; rolled_back := false |};
           output := [(INFO, Starting); (ERROR, CategoriesFileNotFound);
                      (WARNING, NoCategoriesLoaded); (INFO, Completed)] |})) ∧
  (PRODUCTS_FILE fs = Absent →
     ∀ category_map w,
       load_products fs category_map w =
         (Return (), log_line ERROR ProductsFileNotFound w)).
Proof.
  split.
  - intros Hf.
    assert (Hl : ∀ w, load_categories fs w =
                   (Return ∅, log_line ERROR CategoriesFileNotFound w)).
    { intros w. unfold load_categories. by rewrite Hf. }
    split; [done|]. intros af d.
    rewrite (main_Return af fs d ()
      (log_line WARNING NoCategoriesLoaded
         (log_line ERROR CategoriesFileNotFound (connected af d)))); [done|].
    unfold loading_body. erewrite bind_Return by apply Hl.
    by rewrite bool_decide_eq_false_2 by (by intros []).
  - intros Hf m w. unfold load_products. by rewrite Hf.
Qed.

Lemma missing_files_witness :
  let fs := {| CATEGORIES_FILE := Absent; PRODUCTS_FILE := Absent |} in
  main true false fs empty_db =
    {| exit_code := 0;
       final_store := empty_db;
       session := Some {| autoflush := false; tx := empty_db; pending := [];
                          closed := true; rolled_back := false |};
       output := [(INFO, Starting); (ERROR, CategoriesFileNotFound);
                  (WARNING, NoCategoriesLoaded); (INFO, Completed)] |} ∧
  load_products fs {[ Books := 1 ]} (connected false empty_db) =
    (Return (),
     log_line ERROR ProductsFileNotFound (connected false empty_db)).
Proof.
  split.
  - apply (proj1 (missing_files
      {| CATEGORIES_FILE := Absent; PRODUCTS_FILE := Absent |})).
    reflexivity.
  - apply (proj2 (missing_files
      {| CATEGORIES_FILE := Absent; PRODUCTS_FILE := Absent |})).
    reflexivity.
Defined.

(** ** Whole runs: what the store holds *)

Lemma final_store_main af fs d :
  final_store (main true af fs d) = store (loading_body fs (connected af d)).2.
Proof.
  destruct (loading_body fs (connected af d)) as [[u|e] w1] eqn:Hb.
  - by rewrite (main_Return _ _ _ _ _ Hb).
  - by rewrite (main_Raise _ _ _ _ _ Hb).
Qed.

Lemma clean_view w : clean w → view (db w) = store w.
Proof. intros [Hpe Htx]. unfold view. by rewrite Hpe, Htx. Qed.

(** Rows are only ever added, and a product that was added refers to a
    category of the store. *)
Lemma loading_body_grows fs w0 :
  clean w0 →
  let w1 := (loading_body fs w0).2 in
  extends (store w0) (store w1) ∧
  (∀ p, p ∈ products (store w1) →
     p ∈ products (store w0) ∨
     product_category_id p ∈ category_ids (store w1)).
Proof.
  intros Hclean.
  cut (wp (loading_body fs) w0
         (λ _ w1, extends (store w0) (store w1) ∧
            (∀ p, p ∈ products (store w1) →
               p ∈ products (store w0) ∨
               product_category_id p ∈ category_ids (store w1)))
         (λ _ w1, extends (store w0) (store w1) ∧
            (∀ p, p ∈ products (store w1) →
               p ∈ products (store w0) ∨
               product_category_id p ∈ category_ids (store w1)))).
  { unfold wp. by destruct (loading_body fs w0) as [[u|e] w1]. }
  unfold loading_body. apply wp_bind.
  eapply wp_mono; [by apply load_categories_clean| |].
  - intros m w (Hcl & _ & _ & Hpre & Hpr & Hval & _).
    assert (Hw : extends (store w0) (store w)).
    { split; [done|]. by rewrite Hpr. }
    case_bool_decide.
    + eapply wp_mono; [apply load_products_spec| |].
      * intros _ w' (_ & _ & Hfile).
        destruct (PRODUCTS_FILE fs) as [| |ps]; [|done|].
        -- destruct Hfile as [-> _]. split; [done|]. rewrite Hpr. auto.
        -- destruct Hfile as (_ & _ & Hext & Hcat & _ & Horig).
           rewrite (clean_view _ Hcl) in Hext, Hcat, Horig.
           split; [by etrans|].
           intros p [Hp|[k Hk]]%Horig; [left; by rewrite <-Hpr|right].
           unfold category_ids. rewrite Hcat. eauto.
      * intros _ w' [-> _]. split; [done|]. rewrite Hpr. auto.
    + unfold wp. simpl. split; [done|]. rewrite Hpr. auto.
  - intros _ w [-> _]. split; [done|]. auto.
Qed.

(** C3. Every product a run of [main] adds to the store refers to a
    category of the store after that run; hence, when the products the
    store held before the run resolved, every product of the store after the
    run resolves. *)
Theorem main_referential_integrity (check_connection af : bool) (fs : Files)
    (d : Database) :
  let d' := final_store (main check_connection af fs d) in
  (∀ p, p ∈ products d' →
     p ∈ products d ∨
     ∃ c, c ∈ categories d' ∧ category_id c = product_category_id p) ∧
  (referential_integrity d → referential_integrity d').
Proof.
  destruct check_connection; [|simpl; by auto].
  intros d'. unfold d'. clear d'. rewrite final_store_main.
  destruct (loading_body_grows fs (connected af d) (clean_connected af d))
    as [Hext Horig]. simpl in Hext, Horig.
  assert (∀ p, p ∈ products (store (loading_body fs (connected af d)).2) →
     p ∈ products d ∨
     ∃ c, c ∈ categories (store (loading_body fs (connected af d)).2) ∧
          category_id c = product_category_id p) as Hnew.
  { intros p [?|Hc]%Horig; [by left|right].
    apply list_elem_of_fmap in Hc as (c & ? & ?). eauto. }
  split; [done|]. intros HRI p [Hp|?]%Hnew; [|done].
  destruct (HRI p Hp) as (c & Hc & ?). exists c. split; [|done].
  by eapply extends_categories.
Qed.

Lemma books_db_integrity : referential_integrity books_db.
Proof.
  intros p ->%list_elem_of_singleton. eexists. split; [left|done].
Qed.

Lemma main_referential_integrity_witness :
  referential_integrity books_db ∧
  referential_integrity (final_store (main true true toys_files books_db)).
Proof.
  split; [exact books_db_integrity|].
  exact (proj2 (main_referential_integrity true true toys_files books_db)
           books_db_integrity).
Defined.

(** C4. A product record whose name is that of a product the query sees
    is counted as skipped; nothing is staged for it, so what a commit
    would persist is what it was, and the rows of the transaction, the
    existing product among them, stay as they are, whatever price or stock
    the record gives.  Over a whole run of [main] the products the store
    held are all still there, unchanged and in place. *)
Theorem existing_product_untouched :
  (∀ (category_map : gmap value Z) (d : gmap string value)
     (new_count skipped_count : nat) (w : World) (p : Product),
     p ∈ products (visible (db w)) →
     product_name p = dict_get d "name" →
     ∃ w',
       load_products_body category_map (Obj d) (new_count, skipped_count) w =
         (Return (new_count, S skipped_count), w') ∧
       store w' = store w ∧
       view (db w') = view (db w) ∧
       products (tx (db w)) `prefix_of` products (tx (db w')) ∧
       p ∈ products (visible (db w'))) ∧
  (∀ (check_connection af : bool) (fs : Files) (d : Database),
     products d `prefix_of`
       products (final_store (main check_connection af fs d))).
Proof.
  split.
  - intros category_map d n k w p Hp Hname.
    rewrite load_products_body_Obj. cbv zeta.
    destruct (category_map !! dict_get d "category") as [cid|].
    + destruct (List.find _ _) as [p'|] eqn:Hfind.
      * eexists. split; [done|]. simpl. rewrite view_autoflush.
        split_and!; try done; [apply tx_extends_visible|].
        unfold visible in *. by rewrite session_autoflush_idemp.
      * apply find_None_iff with (x := p) in Hfind; [|done].
        by apply bool_decide_eq_false_1 in Hfind.
    + eexists. by split_and!.
  - intros [] af fs d; [|done]. rewrite final_store_main.
    apply (loading_body_grows fs (connected af d) (clean_connected af d)).
Qed.

Lemma existing_product_untouched_witness :
  let w := connected true books_db in
  ∃ w',
    load_products_body {[ Books := 1 ]} (Obj dune_repriced)
      (0%nat, 0%nat) w = (Return (0%nat, 1%nat), w') ∧
    store w' = books_db ∧
    view (db w') = books_db ∧
    products books_db `prefix_of` products (tx (db w')).
Proof.
  destruct (proj1 existing_product_untouched {[ Books := 1 ]} dune_repriced
              0%nat 0%nat (connected true books_db)
              {| product_id := 1; product_name := Dune;
                 product_price := VNum (Q2Qc (31 # 2));
                 product_stock := VNum (Q2Qc 10);
                 product_category_id := 1 |})
    as (w' & H1 & H2 & H3 & H4 & _).
  - apply list_elem_of_here.
  - reflexivity.
  - exists w'. by split_and!.
Defined.

(** ** Running the load again *)

Lemma list_to_set_empty_inv (l : list value) :
  (list_to_set l : gset value) = ∅ → l = [].
Proof. destruct l as [|x l]; [done|]. simpl. set_solver. Qed.

Lemma clean_log_line l m w : clean w → clean (log_line l m w).
Proof. done. Qed.

(** A run from a clean session leaves a stable store. *)
Lemma loading_body_stable fs w0 :
  clean w0 → stable fs (store (loading_body fs w0).2).
Proof.
  intros Hclean.
  cut (wp (loading_body fs) w0
         (λ _ w1, stable fs (store w1)) (λ _ w1, stable fs (store w1))).
  { unfold wp. by destruct (loading_body fs w0) as [[u|e] w1]. }
  unfold loading_body. apply wp_bind.
  eapply wp_mono; [by apply load_categories_clean| |].
  - intros m w (Hcl & _ & _ & _ & _ & _ & Hfile). case_bool_decide as Hm.
    + eapply wp_mono; [apply load_products_spec| |].
      * intros _ w' (_ & _ & Hp). unfold stable.
        destruct (CATEGORIES_FILE fs) as [| |cs]; [done|done|].
        destruct Hfile as (_ & Hdom & Hnm & _). intros _.
        destruct (PRODUCTS_FILE fs) as [| |ps]; [|done|].
        -- destruct Hp as [-> _]. done.
        -- destruct Hp as (_ & _ & _ & Hcat & Hskip & _).
           rewrite (clean_view _ Hcl) in Hcat. split.
           ++ unfold category_names. by rewrite Hcat.
           ++ intros _ _ r Hr. rewrite <-Hdom. by apply Hskip.
      * intros _ w' [-> Hp]. unfold stable.
        destruct (CATEGORIES_FILE fs) as [| |cs]; [done|done|].
        destruct Hfile as (_ & _ & Hnm & _). intros _. split; [done|].
        intros _. by destruct (PRODUCTS_FILE fs).
    + unfold wp. simpl. unfold stable.
      destruct (CATEGORIES_FILE fs) as [| |cs]; [done|done|].
      destruct Hfile as (_ & Hdom & Hnm & _). intros _. split; [done|].
      intros Hne. exfalso. apply Hne, list_to_set_empty_inv.
      rewrite <-Hdom. by rewrite Hm, dom_empty_L.
  - intros _ w [_ Hfile]. unfold stable.
    by destruct (CATEGORIES_FILE fs).
Qed.

(** What a run over a stable store does when the files are arrays of
    objects. *)
Lemma loading_body_present fs cs w :
  clean w → stable fs (store w) →
  CATEGORIES_FILE fs = Content cs → Forall is_obj cs →
  let w2 := log_line INFO (CategoriesLoaded 0 (length (names cs)))
              (log_line INFO (ProcessingCategories (length cs)) w) in
  (names cs = [] →
     loading_body fs w = (Return (), log_line WARNING NoCategoriesLoaded w2)) ∧
  (names cs ≠ [] →
     ∃ m, dom m = list_to_set (names cs) ∧
          loading_body fs w = load_products fs m w2 ∧
          ∀ ps, PRODUCTS_FILE fs = Content ps → Forall is_obj ps →
            load_products fs m w2 =
              (Return (),
               {| store := store w; db := db w;
                  logs := logs w2 ++
                          [(INFO, ProcessingProducts (length ps))] ++
                          warnings (list_to_set (names cs)) ps ++
                          [(INFO, ProductsLoaded 0 (length ps))] |})).
Proof.
  intros Hclean Hstable Hf Hobj w2. unfold stable in Hstable.
  rewrite Hf in Hstable. destruct (Hstable Hobj) as [Hnm Hps].
  destruct (load_categories_present fs cs w Hclean Hf Hobj Hnm)
    as (m & Hm & Hdom).
  unfold loading_body. rewrite (bind_Return _ _ _ _ _ Hm). fold w2. split.
  - intros Hnil. rewrite Hnil in Hdom. simpl in Hdom.
    apply dom_empty_inv_L in Hdom as ->.
    by rewrite bool_decide_eq_false_2 by (by intros []).
  - intros Hne. exists m. split; [done|].
    rewrite bool_decide_eq_true_2; last first.
    { intros ->. apply Hne, list_to_set_empty_inv.
      by rewrite <-Hdom, dom_empty_L. }
    split; [done|]. intros ps Hp Hobj'.
    rewrite (load_products_present fs m ps w2); [by rewrite Hdom|done|done|done|].
    specialize (Hps Hne). rewrite Hp in Hps. rewrite Hdom. by apply Hps.
Qed.

(** A run over a stable store leaves it as it is. *)
Lemma loading_body_fixed fs w :
  clean w → stable fs (store w) → store (loading_body fs w).2 = store w.
Proof.
  intros Hclean Hstable.
  destruct (CATEGORIES_FILE fs) as [| |cs] eqn:Hf.
  - unfold loading_body, load_categories, mbind, M_bind. by rewrite Hf.
  - unfold loading_body, load_categories, mbind, M_bind. by rewrite Hf.
  - destruct (decide (Forall is_obj cs)) as [Hobj|Hobj].
    + destruct (loading_body_present fs cs w Hclean Hstable Hf Hobj)
        as [Hnil Hcons].
      destruct (decide (names cs = [])) as [Hn|Hn]; [by rewrite (Hnil Hn)|].
      destruct (Hcons Hn) as (m & _ & -> & Hps).
      pose proof (load_products_spec fs m
        (log_line INFO (CategoriesLoaded 0 (length (names cs)))
           (log_line INFO (ProcessingCategories (length cs)) w))) as Hwp.
      unfold wp in Hwp.
      destruct (PRODUCTS_FILE fs) as [| |ps] eqn:Hp.
      * destruct (load_products _ _ _) as [[u|e] w3]; simpl.
        -- by destruct Hwp as (_ & _ & -> & _).
        -- by destruct Hwp as [-> _].
      * destruct (load_products _ _ _) as [[u|e] w3]; simpl.
        -- by destruct Hwp as (_ & _ & ?).
        -- by destruct Hwp as [-> _].
      * destruct (decide (Forall is_obj ps)) as [Hobj'|Hobj'].
        -- by rewrite (Hps ps eq_refl Hobj').
        -- destruct (load_products _ _ _) as [[u|e] w3]; simpl.
           ++ by destruct Hwp as (_ & _ & ? & _).
           ++ by destruct Hwp as [-> _].
    + pose proof (load_categories_clean fs w Hclean) as Hwp.
      unfold wp in Hwp. rewrite Hf in Hwp. unfold loading_body, mbind, M_bind.
      destruct (load_categories fs w) as [[m|e] w1]; simpl.
      * by destruct Hwp as (_ & _ & _ & _ & _ & _ & ? & _).
      * by destruct Hwp as [-> _].
Qed.

Lemma second_run_counts_every_record_counterexample :
  output (main true true nameless_files
            (final_store (main true true nameless_files empty_db))) =
    [(INFO, Starting); (INFO, ProcessingCategories 1);
     (INFO, CategoriesLoaded 0 0); (WARNING, NoCategoriesLoaded);
     (INFO, Completed)] ∧
  ¬ second_run_counts_every_record true nameless_files empty_db.
Proof.
  assert (Hout :
    output (main true true nameless_files
              (final_store (main true true nameless_files empty_db))) =
      [(INFO, Starting); (INFO, ProcessingCategories 1);
       (INFO, CategoriesLoaded 0 0); (WARNING, NoCategoriesLoaded);
       (INFO, Completed)]) by reflexivity.
  split; [exact Hout|]. intros H.
  destruct (H [Obj ∅] [dune_record] eq_refl eq_refl) as [Hc _].
  rewrite Hout in Hc. apply list_elem_of_In in Hc. simpl in Hc.
  repeat (destruct Hc as [Hc|Hc]; [discriminate Hc|]). exact Hc.
Qed.

(** C2, amended. Running [main] again over the same files leaves the store
    as the first run left it.  On that second run, when the categories file
    is an array of objects, [load_categories] counts no new category and as
    many existing ones as there are records with a non-empty name; if there
    is none, product loading is skipped; otherwise, when the products file
    is an array of objects, [load_products] counts no new product and
    every product record as skipped. *)
Theorem load_twice (af : bool) (fs : Files) (d : Database) :
  let d1 := final_store (main true af fs d) in
  final_store (main true af fs d1) = d1 ∧
  ∀ cs, CATEGORIES_FILE fs = Content cs → Forall is_obj cs →
    (names cs = [] →
       output (main true af fs d1) =
         [(INFO, Starting); (INFO, ProcessingCategories (length cs));
          (INFO, CategoriesLoaded 0 0); (WARNING, NoCategoriesLoaded);
          (INFO, Completed)]) ∧
    (names cs ≠ [] →
       ∀ ps, PRODUCTS_FILE fs = Content ps → Forall is_obj ps →
         output (main true af fs d1) =
           [(INFO, Starting); (INFO, ProcessingCategories (length cs));
            (INFO, CategoriesLoaded 0 (length (names cs)));
            (INFO, ProcessingProducts (length ps))] ++
           warnings (list_to_set (names cs)) ps ++
           [(INFO, ProductsLoaded 0 (length ps)); (INFO, Completed)]).
Proof.
  intros d1.
  assert (Hst : stable fs d1).
  { unfold d1. rewrite final_store_main.
    apply loading_body_stable, clean_connected. }
  split.
  - rewrite final_store_main.
    apply (loading_body_fixed fs (connected af d1)); [apply clean_connected|done].
  - intros cs Hf Hobj.
    destruct (loading_body_present fs cs (connected af d1)
                (clean_connected _ _) Hst Hf Hobj) as [Hnil Hcons].
    split.
    + intros Hn. rewrite (main_Return _ _ _ _ _ (Hnil Hn)). simpl.
      by rewrite Hn.
    + intros Hn ps Hp Hobj'. destruct (Hcons Hn) as (m & _ & Hb & Hps).
      rewrite (Hps ps Hp Hobj') in Hb.
      rewrite (main_Return _ _ _ _ _ Hb). simpl.
      by rewrite <-!(assoc_L (++)).
Qed.

Lemma load_twice_witness :
  let d1 := final_store (main true true books_files empty_db) in
  d1 = books_db ∧
  final_store (main true true books_files d1) = d1 ∧
  output (main true true books_files d1) =
    [(INFO, Starting); (INFO, ProcessingCategories 1);
     (INFO, CategoriesLoaded 0 1); (INFO, ProcessingProducts 1);
     (INFO, ProductsLoaded 0 1); (INFO, Completed)].
Proof.
  intros d1. split; [reflexivity|].
  destruct (load_twice true books_files empty_db) as [Hstore Hout].
  split; [exact Hstore|].
  destruct (Hout [Obj {["name" := Books]}] eq_refl) as [_ H].
  { by repeat constructor. }
  refine (H _ [dune_record] eq_refl _).
  - discriminate.
  - by repeat constructor.
Defined.

(** * Further properties of the loaders *)

Lemma wp_and {A} (m : M A) w (Q1 Q2 : A → World → Prop)
    (E1 E2 : Exception → World → Prop) :
  wp m w Q1 E1 → wp m w Q2 E2 →
  wp m w (λ a w', Q1 a w' ∧ Q2 a w') (λ e w', E1 e w' ∧ E2 e w').
Proof. unfold wp. by destruct (m w) as [[a|e] w']. Qed.

Lemma visible_autoflush s : autoflush s = true → visible s = view s.
Proof. intros H. unfold visible, session_autoflush. by rewrite H. Qed.

Lemma visible_no_autoflush s : autoflush s = false → visible s = tx s.
Proof. intros H. unfold visible, session_autoflush. by rewrite H. Qed.

Lemma warnings_snoc keys ps r :
  warnings keys (ps ++ [r]) = warnings keys ps ++ warnings keys [r].
Proof. apply omap_app. Qed.

Lemma find_product_None name (l : list Product) :
  List.find (λ p, bool_decide (product_name p = name)) l = None ↔
  name ∉ product_name <$> l.
Proof.
  rewrite find_None_iff, list_elem_of_fmap. split.
  - intros H (p & -> & Hp). specialize (H p Hp).
    by apply bool_decide_eq_false_1 in H.
  - intros H p Hp. apply bool_decide_eq_false_2. intros <-. apply H. eauto.
Qed.

Lemma find_category_None name (l : list Category) :
  List.find (λ c, bool_decide (category_name c = name)) l = None ↔
  name ∉ category_name <$> l.
Proof.
  rewrite find_None_iff, list_elem_of_fmap. split.
  - intros H (c & -> & Hc). specialize (H c Hc).
    by apply bool_decide_eq_false_1 in H.
  - intros H c Hc. apply bool_decide_eq_false_2. intros <-. apply H. eauto.
Qed.

Lemma NoDup_snoc {A} (l : list A) x : NoDup l → x ∉ l → NoDup (l ++ [x]).
Proof.
  intros Hl Hx. apply NoDup_app. split_and!; [done| |apply NoDup_singleton].
  intros y Hy ->%list_elem_of_singleton. done.
Qed.

(** ** More about the loop of [load_categories] *)

Lemma load_categories_body_facts w0 m0 n0 x acc w :
  categories_facts w0 m0 n0 acc w →
  wp (load_categories_body x acc) w (categories_facts w0 m0 n0)
     (λ _ _, True).
Proof.
  destruct acc as [[m n] e]. intros (Hpe & Hmap & Hnd & Hle & Hlen).
  destruct x as [d|]; [|by step_body].
  unfold wp. rewrite load_categories_body_Obj. cbv zeta.
  unfold visible, view. rewrite (session_autoflush_clean _ Hpe), Hpe. simpl.
  unfold categories_facts.
  destruct (truthy (dict_get d "name")) eqn:Htr; simpl; [|done].
  destruct (List.find _ _) as [c|] eqn:Hfind; simpl.
  - apply find_Some_elem in Hfind as [Hc Hname%bool_decide_eq_true_1].
    split_and!; try done; try lia.
    intros k i. rewrite lookup_insert. case_decide; [|by auto].
    intros [= <-]. right. subst. eauto.
  - apply find_category_None in Hfind.
    split_and!; try done; try lia; try (rewrite length_app; simpl; lia).
    + intros k i. rewrite lookup_insert. case_decide.
      * intros [= <-]. right. subst. eexists.
        split; [apply elem_of_app; right; apply list_elem_of_here|done].
      * intros [?|(c & ? & ? & ?)]%Hmap; [by left|right].
        exists c. split; [|done]. apply elem_of_app. by left.
    + intros H. unfold category_names. simpl. rewrite fmap_app. simpl.
      apply NoDup_snoc; auto.
Qed.

Lemma load_categories_loop_facts w0 m0 n0 e0 cs :
  pending (db w0) = [] →
  wp (for_each cs load_categories_body (m0, n0, e0)) w0
     (categories_facts w0 m0 n0) (λ _ _, True).
Proof.
  intros Hpe.
  apply (wp_for_each (λ _, categories_facts w0 m0 n0) (λ _ _, True)).
  - intros pre x post acc w _ HI. by apply load_categories_body_facts.
  - unfold categories_facts. split_and!; try done; try lia. by auto.
Qed.

Lemma load_categories_facts fs w0 :
  clean w0 →
  wp (load_categories fs) w0
    (λ m w,
       (∀ k i, m !! k = Some i →
          ∃ c, c ∈ categories (store w) ∧ category_id c = i ∧
               category_name c = k) ∧
       (NoDup (category_names (store w0)) →
        NoDup (category_names (store w))) ∧
       (∀ cs, CATEGORIES_FILE fs = Content cs →
          ∃ n e,
            logs w = logs w0 ++ [(INFO, ProcessingCategories (length cs));
                                 (INFO, CategoriesLoaded n e)] ∧
            (n + e = length (names cs))%nat ∧
            length (categories (store w)) =
              (length (categories (store w0)) + n)%nat))
    (λ _ _, True).
Proof.
  intros [Hpe Htx]. unfold load_categories.
  destruct (CATEGORIES_FILE fs) as [| |cs]; simpl.
  - unfold wp. simpl. by split_and!.
  - by unfold wp.
  - apply wp_bind, wp_ret, wp_bind. unfold wp at 1. simpl. apply wp_bind.
    eapply wp_mono;
      [apply wp_and;
       [apply (load_categories_loop
                 (log_line INFO (ProcessingCategories (length cs)) w0)
                 ∅ 0 0 cs Hpe)
       |apply (load_categories_loop_facts
                 (log_line INFO (ProcessingCategories (length cs)) w0)
                 ∅ 0 0 cs Hpe)]| |done].
    intros [[m n] e] w
      [(Hst & Hlg & _ & _ & _ & _ & _ & _ & _ & _ & _ & Hcnt)
       (Hpe' & Hmap & Hnd & _ & Hlen)].
    simpl in *. unfold wp, db_commit, logger, log_line, mbind, M_bind. simpl.
    rewrite Hpe'. simpl. rewrite <-Htx. split_and!.
    + intros k i [?%lookup_empty_Some|?]%Hmap; done.
    + done.
    + intros cs' [= <-]. exists n, e. split_and!.
      * rewrite Hlg. by rewrite <-(assoc_L (++)).
      * lia.
      * rewrite Hlen. lia.
Qed.

(** ** More about the loop of [load_products] *)

Lemma load_products_body_facts w0 category_map n0 k0 pre x acc w :
  products_facts w0 category_map n0 k0 pre acc w →
  wp (load_products_body category_map x acc) w
     (products_facts w0 category_map n0 k0 (pre ++ [x])) (λ _ _, True).
Proof.
  destruct acc as [n k]. intros (Hlg & Hcnt & Hle & Hlen & Horig & Haf).
  destruct x as [d|]; [|by step_body].
  unfold wp. rewrite load_products_body_Obj. cbv zeta.
  unfold products_facts. rewrite warnings_snoc, length_app. simpl.
  assert (Horig' : ∀ p, p ∈ products (view (db w)) →
     p ∈ products (view (db w0)) ∨
     ∃ d', Obj d' ∈ pre ++ [Obj d] ∧
          product_name p = dict_get d' "name" ∧
          product_price p = dict_get d' "price" ∧
          product_stock p = dict_get d' "stock" ∧
          category_map !! dict_get d' "category" =
            Some (product_category_id p)).
  { intros p [?|(d' & ? & ?)]%Horig; [by left|right].
    exists d'. split; [|done]. apply elem_of_app. by left. }
  destruct (category_map !! dict_get d "category") as [cid|] eqn:Hc; simpl.
  - rewrite bool_decide_eq_true_2 by (apply elem_of_dom; eauto).
    rewrite app_nil_r.
    destruct (List.find _ _) as [p|] eqn:Hfind; simpl.
    + rewrite view_autoflush, autoflush_autoflush.
      split_and!; try done; lia.
    + rewrite view_add, view_autoflush, autoflush_autoflush. simpl.
      split_and!; try done; try lia.
      * rewrite length_app. simpl. lia.
      * intros p [?| ->%list_elem_of_singleton]%elem_of_app; [by auto|].
        right. exists d. simpl. split; [|done].
        apply elem_of_app. right. apply list_elem_of_here.
      * intros Haf0. destruct (Haf Haf0) as [Haf1 Hnd]. split; [done|].
        intros H. unfold product_names. simpl. rewrite fmap_app. simpl.
        apply NoDup_snoc; [by apply Hnd|].
        apply find_product_None in Hfind.
        by rewrite (visible_autoflush _ Haf1) in Hfind.
  - rewrite bool_decide_eq_false_2 by (by apply not_elem_of_dom).
    simpl. split_and!; try done; try lia.
    by rewrite Hlg, <-(assoc_L (++)).
Qed.

Lemma load_products_loop_facts w0 category_map ps n0 k0 :
  wp (for_each ps (load_products_body category_map) (n0, k0)) w0
     (products_facts w0 category_map n0 k0 ps) (λ _ _, True).
Proof.
  apply wp_for_each.
  - intros pre x post acc w _ HI. by apply load_products_body_facts.
  - unfold products_facts. simpl.
    split_and!; try done; try lia; [by rewrite app_nil_r|by auto].
Qed.

Lemma load_products_facts fs category_map w0 :
  clean w0 →
  wp (load_products fs category_map) w0
    (λ _ w,
       (∀ p, p ∈ products (store w) →
          p ∈ products (store w0) ∨
          ∃ ps d, PRODUCTS_FILE fs = Content ps ∧ Obj d ∈ ps ∧
               product_name p = dict_get d "name" ∧
               product_price p = dict_get d "price" ∧
               product_stock p = dict_get d "stock" ∧
               category_map !! dict_get d "category" =
                 Some (product_category_id p)) ∧
       (autoflush (db w0) = true →
        NoDup (product_names (store w0)) →
        NoDup (product_names (store w))) ∧
       (∀ ps, PRODUCTS_FILE fs = Content ps →
          ∃ n k,
            logs w = logs w0 ++ [(INFO, ProcessingProducts (length ps))] ++
                     warnings (dom category_map) ps ++
                     [(INFO, ProductsLoaded n k)] ∧
            (n + k = length ps)%nat ∧
            length (products (store w)) =
              (length (products (store w0)) + n)%nat))
    (λ _ _, True).
Proof.
  intros Hclean. pose proof (clean_view _ Hclean) as Hview.
  unfold load_products.
  destruct (PRODUCTS_FILE fs) as [| |ps]; simpl.
  - unfold wp. simpl. split_and!; by auto.
  - by unfold wp.
  - apply wp_bind, wp_ret, wp_bind. unfold wp at 1. simpl. apply wp_bind.
    eapply wp_mono;
      [apply (load_products_loop_facts
                (log_line INFO (ProcessingProducts (length ps)) w0)
                category_map ps 0 0)| |done].
    intros [n k] w (Hlg & Hcnt & _ & Hlen & Horig & Haf).
    simpl in *. unfold wp, db_commit, logger, log_line, mbind, M_bind. simpl.
    fold (view (db w)). rewrite Hview in *. split_and!.
    + intros p [?|(d & ? & ?)]%Horig; [by left|right]. eauto.
    + intros Haf0 Hnd. by apply Haf.
    + intros ps' [= <-]. exists n, k. split_and!.
      * rewrite Hlg. by rewrite <-!(assoc_L (++)).
      * lia.
      * rewrite Hlen. lia.
Qed.

Lemma load_products_categories fs category_map w0 :
  clean w0 →
  wp (load_products fs category_map) w0
     (λ _ w, categories (store w) = categories (store w0) ∧
             autoflush (db w) = autoflush (db w0))
     (λ _ w, store w = store w0).
Proof.
  intros Hclean. eapply wp_mono; [apply load_products_spec| |].
  - intros _ w (Haf & _ & Hfile). split; [|done].
    destruct (PRODUCTS_FILE fs) as [| |ps]; [|done|].
    + by destruct Hfile as [-> _].
    + destruct Hfile as (_ & _ & _ & Hcat & _).
      by rewrite (clean_view _ Hclean) in Hcat.
  - by intros _ w [? _].
Qed.





(** ** What [load_categories] returns and leaves *)

(** X1. The mapping [load_categories] returns binds exactly the non-empty
    names of the file, each to the identifier of a category of the
    committed store that carries that name. *)
Theorem load_categories_mapping (fs : Files) (w w' : World)
    (category_map : gmap value Z) :
  clean w →
  load_categories fs w = (Return category_map, w') →
  (∀ k i, category_map !! k = Some i →
     truthy k = true ∧
     ∃ c, c ∈ categories (store w') ∧ category_id c = i ∧
          category_name c = k) ∧
  (∀ cs, CATEGORIES_FILE fs = Content cs →
     dom category_map = list_to_set (names cs)) ∧
  (CATEGORIES_FILE fs = Absent → category_map = ∅).
Proof.
  intros Hclean Hload.
  pose proof (wp_Return _ _ _ _ _ _ (load_categories_keys fs w) Hload) as Hk.
  pose proof (wp_Return _ _ _ _ _ _ (load_categories_facts fs w Hclean) Hload)
    as (Hmap & _ & _).
  pose proof (wp_Return _ _ _ _ _ _ (load_categories_clean fs w Hclean) Hload)
    as (_ & _ & _ & _ & _ & _ & Hfile).
  split_and!.
  - intros k i Hki. split; [|by apply Hmap].
    apply Hk, elem_of_dom. eauto.
  - intros cs Hf. rewrite Hf in Hfile. by destruct Hfile as (_ & ? & _).
  - intros Hf. rewrite Hf in Hfile. by destruct Hfile as [? _].
Qed.

Lemma load_categories_mapping_witness :
  (∀ k i, ({[ Books := 1 ]} : gmap value Z) !! k = Some i →
     truthy k = true ∧
     ∃ c, c ∈ categories (store books_world) ∧ category_id c = i ∧
          category_name c = k) ∧
  dom ({[ Books := 1 ]} : gmap value Z) = list_to_set [Books].
Proof.
  destruct (load_categories_mapping books_files (connected true empty_db)
              books_world {[ Books := 1 ]}) as (H1 & H2 & _).
  - apply clean_connected.
  - reflexivity.
  - split; [exact H1|]. exact (H2 _ eq_refl).
Defined.

(** X2. The counters [load_categories] logs add up: new and existing together
    count the records with a non-empty name, the store gained exactly
    "new" categories, and its products are as they were. *)
Theorem load_categories_counts (fs : Files) (cs : list record) (w w' : World)
    (category_map : gmap value Z) :
  clean w →
  CATEGORIES_FILE fs = Content cs →
  load_categories fs w = (Return category_map, w') →
  ∃ new_count existing_count,
    logs w' = logs w ++ [(INFO, ProcessingCategories (length cs));
                         (INFO, CategoriesLoaded new_count existing_count)] ∧
    (new_count + existing_count = length (names cs))%nat ∧
    length (categories (store w')) =
      (length (categories (store w)) + new_count)%nat ∧
    categories (store w) `prefix_of` categories (store w') ∧
    products (store w') = products (store w).
Proof.
  intros Hclean Hf Hload.
  pose proof (wp_Return _ _ _ _ _ _ (load_categories_facts fs w Hclean) Hload)
    as (_ & _ & Hcnt).
  pose proof (wp_Return _ _ _ _ _ _ (load_categories_clean fs w Hclean) Hload)
    as (_ & _ & _ & Hpre & Hpr & _).
  destruct (Hcnt cs Hf) as (n & e & ? & ? & ?). exists n, e. by split_and!.
Qed.

Lemma load_categories_counts_witness :
  ∃ new_count existing_count,
    logs books_world =
      [(INFO, Starting)] ++
      [(INFO, ProcessingCategories 1);
       (INFO, CategoriesLoaded new_count existing_count)] ∧
    (new_count + existing_count = 1)%nat ∧
    length (categories (store books_world)) = (0 + new_count)%nat ∧
    categories empty_db `prefix_of` categories (store books_world) ∧
    products (store books_world) = products empty_db.
Proof.
  exact (load_categories_counts books_files [Obj {["name" := Books]}]
           (connected true empty_db) books_world {[ Books := 1 ]}
           (clean_connected _ _) eq_refl eq_refl).
Defined.

(** ** What [load_products] logs and leaves *)

(** X3. The counters [load_products] logs add up: new and skipped together
    count the records of the file, the store gained exactly "new"
    products, one warning was logged for each record whose category is
    not a key of the mapping, and the categories are as they were. *)
Theorem load_products_counts (fs : Files) (ps : list record) (w w' : World)
    (category_map : gmap value Z) (u : unit) :
  clean w →
  PRODUCTS_FILE fs = Content ps →
  load_products fs category_map w = (Return u, w') →
  ∃ new_count skipped_count,
    logs w' = logs w ++ [(INFO, ProcessingProducts (length ps))] ++
              warnings (dom category_map) ps ++
              [(INFO, ProductsLoaded new_count skipped_count)] ∧
    (new_count + skipped_count = length ps)%nat ∧
    length (products (store w')) =
      (length (products (store w)) + new_count)%nat ∧
    products (store w) `prefix_of` products (store w') ∧
    categories (store w') = categories (store w).
Proof.
  intros Hclean Hf Hload.
  pose proof (wp_Return _ _ _ _ _ _ (load_products_facts fs _ w Hclean) Hload)
    as (_ & _ & Hcnt).
  pose proof (wp_Return _ _ _ _ _ _ (load_products_spec fs _ w) Hload)
    as (_ & _ & Hfile).
  pose proof (wp_Return _ _ _ _ _ _
                (load_products_categories fs _ w Hclean) Hload) as [Hcat _].
  rewrite Hf in Hfile. destruct Hfile as (_ & _ & [_ Hext] & _).
  rewrite (clean_view _ Hclean) in Hext.
  destruct (Hcnt ps Hf) as (n & k & ? & ? & ?). exists n, k. by split_and!.
Qed.

Lemma load_products_counts_witness :
  ∃ w' new_count skipped_count,
    load_products toys_files {[ Toys := 1 ]} (connected true books_db)
      = (Return (), w') ∧
    logs w' = [(INFO, Starting)] ++ [(INFO, ProcessingProducts 1)] ++
              warnings (dom ({[ Toys := 1 ]} : gmap value Z)) [dune_record] ++
              [(INFO, ProductsLoaded new_count skipped_count)] ∧
    (new_count + skipped_count = 1)%nat ∧
    length (products (store w')) = (1 + new_count)%nat ∧
    products books_db `prefix_of` products (store w') ∧
    categories (store w') = categories books_db.
Proof.
  eexists (load_products toys_files {[ Toys := 1 ]}
             (connected true books_db)).2.
  assert (H : load_products toys_files {[ Toys := 1 ]}
                (connected true books_db) =
              (Return (), (load_products toys_files {[ Toys := 1 ]}
                             (connected true books_db)).2))
    by reflexivity.
  destruct (load_products_counts toys_files [dune_record]
              (connected true books_db) _ {[ Toys := 1 ]} ()
              (clean_connected _ _) eq_refl H) as (n & k & Hn).
  exists n, k. split; [exact H|exact Hn].
Defined.

(** ** [load_products] when queries do not flush *)

Lemma flush_rows_product_names ts : ∀ d,
  product_names (flush_rows d ts) = product_names d ++ omap staged_name ts.
Proof.
  induction ts as [|t ts IH]; intros d; simpl.
  - by rewrite app_nil_r.
  - unfold flush_rows in *. rewrite IH. destruct t as [name|name ? ? ?]; simpl.
    + done.
    + unfold product_names. simpl. rewrite fmap_app. simpl.
      by rewrite <-(assoc_L (++)).
Qed.

Lemma new_products_cons_Obj category_map d0 d ps :
  new_products category_map d0 (Obj d :: ps) =
    match category_map !! dict_get d "category" with
    | Some cid =>
        if bool_decide (dict_get d "name" ∈ product_names d0)
        then new_products category_map d0 ps
        else ProductModel (dict_get d "name") (dict_get d "price")
               (dict_get d "stock") cid :: new_products category_map d0 ps
    | None => new_products category_map d0 ps
    end.
Proof.
  unfold new_products. simpl. destruct (category_map !! _); [|done].
  by case_bool_decide.
Qed.

Lemma warnings_cons_Obj keys d ps :
  warnings keys (Obj d :: ps) =
    if bool_decide (dict_get d "category" ∈ keys) then warnings keys ps
    else (WARNING,
          CategoryNotFound (dict_get d "category") (dict_get d "name"))
         :: warnings keys ps.
Proof. unfold warnings. simpl. by case_bool_decide. Qed.

Lemma load_products_loop_no_autoflush category_map ps : ∀ n k w,
  autoflush (db w) = false →
  Forall is_obj ps →
  ∃ n' k',
    for_each ps (load_products_body category_map) (n, k) w =
      (Return (n', k'),
       {| store := store w;
          db := {| autoflush := false; tx := tx (db w);
                   pending := pending (db w) ++
                              new_products category_map (tx (db w)) ps;
                   closed := closed (db w);
                   rolled_back := rolled_back (db w) |};
          logs := logs w ++ warnings (dom category_map) ps |}) ∧
    n' = (n + length (new_products category_map (tx (db w)) ps))%nat ∧
    (n' + k' = n + k + length ps)%nat.
Proof.
  induction ps as [|[d|] ps IH]; intros n k w Haf Hobj; cbn [for_each].
  - exists n, k. simpl. rewrite !app_nil_r. split_and!; try lia.
    destruct w as [st [af t pe cl rb] lg]. simpl in *. by subst.
  - apply Forall_cons in Hobj as [_ Hobj].
    unfold mbind, M_bind. rewrite load_products_body_Obj. cbv zeta.
    rewrite (visible_no_autoflush _ Haf).
    assert (Hs : session_autoflush (db w) = db w).
    { unfold session_autoflush. by rewrite Haf. }
    rewrite Hs, new_products_cons_Obj, warnings_cons_Obj.
    destruct (category_map !! dict_get d "category") as [cid|] eqn:Hc.
    + assert (Hdom : dict_get d "category" ∈ dom category_map)
        by (apply elem_of_dom; eauto).
      rewrite (bool_decide_eq_true_2 _ Hdom).
      destruct (List.find _ _) as [p|] eqn:Hfind.
      * assert (Hin : dict_get d "name" ∈ product_names (tx (db w))).
        { apply find_Some_elem in Hfind as [Hp Hn%bool_decide_eq_true_1].
          apply list_elem_of_fmap. eauto. }
        rewrite (bool_decide_eq_true_2 _ Hin), world_eta.
        destruct (IH n (S k) w Haf Hobj) as (n' & k' & -> & -> & ?).
        eexists _, _. cbn [length]. split_and!; [done|done|lia].
      * apply find_product_None in Hfind.
        rewrite (bool_decide_eq_false_2 _ Hfind).
        destruct (IH (S n) k
                    {| store := store w;
                       db := session_add
                               (ProductModel (dict_get d "name")
                                  (dict_get d "price") (dict_get d "stock")
                                  cid) (db w);
                       logs := logs w |}) as (n' & k' & -> & -> & Hcnt);
          [done|done|].
        cbn [store db logs tx pending closed session_add] in *.
        eexists _, _. rewrite <-(assoc_L (++)). cbn [length app].
        split_and!; [done|lia|lia].
    + assert (Hdom : dict_get d "category" ∉ dom category_map)
        by (by apply not_elem_of_dom).
      rewrite (bool_decide_eq_false_2 _ Hdom).
      destruct (IH n (S k)
                  (log_line WARNING
                     (CategoryNotFound (dict_get d "category")
                        (dict_get d "name")) w)) as (n' & k' & -> & -> & Hcnt);
        [done|done|].
      cbn [store db logs log_line] in *.
      eexists _, _. rewrite <-(assoc_L (++)). cbn [length app].
      split_and!; [done|lia|lia].
  - by apply Forall_cons in Hobj as [? _].
Qed.

(** X4. With a session that does not autoflush, [load_products] looks every
    name up in the store as it was on entry: it inserts, in file order, one
    product for every record whose category resolves and whose name no
    stored product carried, so a name the file repeats is inserted as often
    as it occurs.  The names of the store afterwards are the old ones
    followed by those of the inserted products. *)
Theorem load_products_without_autoflush (fs : Files) (ps : list record)
    (category_map : gmap value Z) (w : World) :
  clean w →
  autoflush (db w) = false →
  PRODUCTS_FILE fs = Content ps →
  Forall is_obj ps →
  ∃ w' skipped_count,
    load_products fs category_map w = (Return (), w') ∧
    store w' = flush_rows (store w) (new_products category_map (store w) ps) ∧
    product_names (store w') =
      product_names (store w) ++
      omap staged_name (new_products category_map (store w) ps) ∧
    last (logs w') =
      Some (INFO,
            ProductsLoaded
              (length (new_products category_map (store w) ps))
              skipped_count) ∧
    (length (new_products category_map (store w) ps) + skipped_count
     = length ps)%nat.
Proof.
  intros [Hpe Htx] Haf Hf Hobj.
  unfold load_products. rewrite Hf. simpl.
  unfold mbind at 1, M_bind at 1. simpl.
  unfold mbind at 1, M_bind at 1. simpl.
  unfold mbind at 1, M_bind at 1.
  destruct (load_products_loop_no_autoflush category_map ps 0 0
              (log_line INFO (ProcessingProducts (length ps)) w) Haf Hobj)
    as (n' & k' & -> & -> & Hcnt).
  simpl. unfold db_commit, logger, log_line, mbind, M_bind. simpl.
  rewrite Hpe, Htx. simpl.
  eexists _, k'. split; [done|]. simpl. split_and!; try done.
  - apply flush_rows_product_names.
  - by rewrite last_snoc.
  - simpl in Hcnt. rewrite Htx in Hcnt. lia.
Qed.

Lemma load_products_without_autoflush_witness :
  ∃ w' skipped_count,
    load_products twice_files {[ Books := 1 ]} (connected false empty_db)
      = (Return (), w') ∧
    store w' =
      flush_rows empty_db
        (new_products {[ Books := 1 ]} empty_db [dune_record; dune_record]) ∧
    product_names (store w') = [] ++ [Dune; Dune] ∧
    last (logs w') = Some (INFO, ProductsLoaded 2 skipped_count) ∧
    (2 + skipped_count = 2)%nat.
Proof.
  refine (load_products_without_autoflush twice_files
            [dune_record; dune_record] {[ Books := 1 ]}
            (connected false empty_db) (clean_connected _ _) eq_refl eq_refl
            _).
  by repeat constructor.
Defined.

(** ** Whole runs: names, provenance, failures *)

Lemma loading_body_facts fs w0 :
  clean w0 →
  let w1 := (loading_body fs w0).2 in
  (NoDup (category_names (store w0)) → NoDup (category_names (store w1))) ∧
  (autoflush (db w0) = true →
   NoDup (product_names (store w0)) → NoDup (product_names (store w1))) ∧
  (∀ p, p ∈ products (store w1) →
     p ∈ products (store w0) ∨
     ∃ ps r c, PRODUCTS_FILE fs = Content ps ∧ Obj r ∈ ps ∧
       product_name p = dict_get r "name" ∧
       product_price p = dict_get r "price" ∧
       product_stock p = dict_get r "stock" ∧
       c ∈ categories (store w1) ∧
       category_id c = product_category_id p ∧
       category_name c = dict_get r "category").
Proof.
  intros Hclean.
  set (P := λ w1 : World,
    (NoDup (category_names (store w0)) → NoDup (category_names (store w1))) ∧
    (autoflush (db w0) = true →
     NoDup (product_names (store w0)) → NoDup (product_names (store w1))) ∧
    (∀ p, p ∈ products (store w1) →
       p ∈ products (store w0) ∨
       ∃ ps r c, PRODUCTS_FILE fs = Content ps ∧ Obj r ∈ ps ∧
         product_name p = dict_get r "name" ∧
         product_price p = dict_get r "price" ∧
         product_stock p = dict_get r "stock" ∧
         c ∈ categories (store w1) ∧
         category_id c = product_category_id p ∧
         category_name c = dict_get r "category")).
  cut (wp (loading_body fs) w0 (λ _, P) (λ _, P)).
  { unfold wp. by destruct (loading_body fs w0) as [[u|e] w1]. }
  assert (HP0 : ∀ w, store w = store w0 → P w).
  { intros w Hw. unfold P. rewrite Hw. split_and!; by auto. }
  unfold loading_body. apply wp_bind.
  eapply wp_mono;
    [apply wp_and; [by apply load_categories_clean
                   |by apply load_categories_facts]| |].
  - intros m w [(Hcl & Haf & _ & _ & Hpr & _) (Hmap & Hnd & _)].
    assert (HPw : ∀ w', store w' = store w → P w').
    { intros w' Hw. unfold P. rewrite Hw, Hpr. unfold product_names.
      rewrite Hpr. split_and!; by auto. }
    case_bool_decide.
    + eapply wp_mono;
        [apply wp_and; [by apply load_products_categories
                       |by apply load_products_facts]| |].
      * intros _ w' [[Hcat _] (Horig & Hndp & _)]. unfold P. split_and!.
        -- unfold category_names. rewrite Hcat. apply Hnd.
        -- intros Haf0. rewrite Haf0 in Haf. unfold product_names in *.
           rewrite Hpr in Hndp. by apply Hndp.
        -- intros p [Hp|(ps & r & Hf & Hr & Hn & Hpc & Hs & Hm)]%Horig.
           { left. by rewrite <-Hpr. }
           right. destruct (Hmap _ _ Hm) as (c & Hc & ? & ?).
           exists ps, r, c. rewrite Hcat. by split_and!.
      * intros _ w' [Hst _]. by apply HPw.
    + unfold wp. simpl. by apply HPw.
  - intros _ w [[Hst _] _]. by apply HP0.
Qed.

(** X6. A run of [main] leaves every category of the store in place and
    unchanged, and creates no second category of a name: when the names of
    the stored categories were distinct, they still are. *)
Theorem main_category_names_distinct (check_connection af : bool)
    (fs : Files) (d : Database) :
  let d' := final_store (main check_connection af fs d) in
  categories d `prefix_of` categories d' ∧
  (NoDup (category_names d) → NoDup (category_names d')).
Proof.
  destruct check_connection; [|by simpl]. simpl. rewrite final_store_main.
  split.
  - apply (loading_body_grows fs (connected af d) (clean_connected af d)).
  - apply (loading_body_facts fs (connected af d) (clean_connected af d)).
Qed.

Lemma main_category_names_distinct_witness :
  let d' := final_store (main true false books_files books_db) in
  categories books_db `prefix_of` categories d' ∧
  NoDup (category_names d').
Proof.
  destruct (main_category_names_distinct true false books_files books_db)
    as [H1 H2].
  split; [exact H1|]. apply H2. apply NoDup_singleton.
Defined.

(** X7. With a session that autoflushes, a run of [main] creates no second
    product of a name, not even for a name the file repeats: when the names
    of the stored products were distinct, they still are. *)
Theorem main_product_names_distinct (check_connection : bool) (fs : Files)
    (d : Database) :
  NoDup (product_names d) →
  NoDup (product_names (final_store (main check_connection true fs d))).
Proof.
  destruct check_connection; [|by simpl]. rewrite final_store_main.
  by apply (loading_body_facts fs (connected true d) (clean_connected true d)).
Qed.

Lemma main_product_names_distinct_witness :
  NoDup (product_names empty_db) ∧
  NoDup (product_names (final_store (main true true twice_files empty_db))).
Proof.
  assert (H : NoDup (product_names empty_db)) by apply NoDup_nil_2.
  split; [exact H|].
  exact (main_product_names_distinct true twice_files empty_db H).
Defined.

(** X8. Every product a run of [main] adds comes from a record of the
    products file: it carries that record's name, and its category_id is
    the identifier of a category of the store whose name is the record's
    category. *)
Theorem main_products_linked (check_connection af : bool) (fs : Files)
    (d : Database) (p : Product) :
  p ∈ products (final_store (main check_connection af fs d)) →
  p ∈ products d ∨
  ∃ ps r c,
    PRODUCTS_FILE fs = Content ps ∧ Obj r ∈ ps ∧
    product_name p = dict_get r "name" ∧
    c ∈ categories (final_store (main check_connection af fs d)) ∧
    category_id c = product_category_id p ∧
    category_name c = dict_get r "category".
Proof.
  destruct check_connection; [|by left]. rewrite final_store_main.
  intros Hp.
  destruct (loading_body_facts fs (connected af d) (clean_connected af d))
    as (_ & _ & H).
  destruct (H p Hp) as [?|(ps & r & c & ? & ? & ? & _ & _ & ? & ? & ?)];
    [by left|right].
  exists ps, r, c. by split_and!.
Qed.

Lemma main_products_linked_witness :
  let p := {| product_id := 1; product_name := Dune;
              product_price := VNum (Q2Qc (31 # 2));
              product_stock := VNum (Q2Qc 10);
              product_category_id := 1 |} in
  p ∈ products (final_store (main true true books_files empty_db)) ∧
  (p ∈ products empty_db ∨
   ∃ ps r c,
     PRODUCTS_FILE books_files = Content ps ∧ Obj r ∈ ps ∧
     product_name p = dict_get r "name" ∧
     c ∈ categories (final_store (main true true books_files empty_db)) ∧
     category_id c = product_category_id p ∧
     category_name c = dict_get r "category").
Proof.
  intros p.
  assert (H : p ∈ products (final_store (main true true books_files empty_db)))
    by apply list_elem_of_here.
  split; [exact H|].
  exact (main_products_linked true true books_files empty_db p H).
Defined.

(** X9. The two loaders commit separately.  When [load_categories] raises,
    [main] leaves the store exactly as it found it.  When [load_products]
    raises, the categories [load_categories] committed stay in the store
    and no product of the run does. *)
Theorem main_failure_boundaries (af : bool) (fs : Files) (d : Database) :
  (∀ e w1,
     load_categories fs (connected af d) = (Raise e, w1) →
     final_store (main true af fs d) = d) ∧
  (∀ category_map w' e w1,
     load_categories fs (connected af d) = (Return category_map, w') →
     category_map ≠ ∅ →
     load_products fs category_map w' = (Raise e, w1) →
     final_store (main true af fs d) = store w' ∧
     products (store w') = products d ∧
     categories d `prefix_of` categories (store w') ∧
     ∀ k, k ∈ dom category_map → k ∈ category_names (store w')).
Proof.
  split.
  - intros e w1 Hc.
    assert (Hb : loading_body fs (connected af d) = (Raise e, w1)).
    { apply loading_body_Raise. by left. }
    rewrite (main_Raise _ _ _ _ _ Hb). simpl.
    by destruct (wp_Raise _ _ _ _ _ _
                   (load_categories_clean fs _ (clean_connected af d)) Hc).
  - intros m w' e w1 Hc Hm Hp.
    assert (Hb : loading_body fs (connected af d) = (Raise e, w1)).
    { apply loading_body_Raise. right. eauto. }
    rewrite (main_Raise _ _ _ _ _ Hb). simpl.
    destruct (wp_Return _ _ _ _ _ _
                (load_categories_clean fs _ (clean_connected af d)) Hc)
      as (_ & _ & _ & Hpre & Hpr & _).
    destruct (wp_Return _ _ _ _ _ _
                (load_categories_facts fs _ (clean_connected af d)) Hc)
      as (Hmap & _).
    destruct (wp_Raise _ _ _ _ _ _ (load_products_spec fs m w') Hp)
      as [-> _].
    split_and!; try done.
    intros k [i Hi]%elem_of_dom. destruct (Hmap k i Hi) as (c & ? & ? & <-).
    apply list_elem_of_fmap. eauto.
Qed.

Lemma main_failure_boundaries_witness :
  final_store (main true true broken_files empty_db) = empty_db ∧
  final_store (main true true unreadable_products empty_db)
    = store books_world ∧
  products (store books_world) = products empty_db.
Proof.
  destruct (main_failure_boundaries true broken_files empty_db) as [H1 _].
  destruct (main_failure_boundaries true unreadable_products empty_db)
    as [_ H2].
  split.
  - apply (H1 AttributeError broken_world). reflexivity.
  - destruct (H2 {[ Books := 1 ]} books_world JSONDecodeError books_world)
      as (Ha & Hb & _).
    + reflexivity.
    + intros H. by apply (f_equal (.!! Books)) in H.
    + reflexivity.
    + by split.
Defined.

(** X10. When both files are arrays of objects, a run of [main] leaves nothing
    out: every non-empty category name of the file is the name of a stored
    category, and every product record whose category is one of those names
    has a stored product of its name. *)
Theorem main_loads_everything (af : bool) (fs : Files) (d : Database)
    (cs : list record) :
  CATEGORIES_FILE fs = Content cs → Forall is_obj cs →
  let d' := final_store (main true af fs d) in
  (∀ k, k ∈ names cs → k ∈ category_names d') ∧
  (∀ ps r, PRODUCTS_FILE fs = Content ps → Forall is_obj ps →
     Obj r ∈ ps → dict_get r "category" ∈ names cs →
     dict_get r "name" ∈ product_names d').
Proof.
  intros Hf Hobj d'. unfold d'. rewrite final_store_main.
  pose proof (loading_body_stable fs (connected af d) (clean_connected af d))
    as Hst.
  unfold stable in Hst. rewrite Hf in Hst. destruct (Hst Hobj) as [Hnm Hps].
  split; [done|]. intros ps r Hp Hobj' Hr Hcat.
  assert (Hne : names cs ≠ []).
  { intros Hnil. rewrite Hnil in Hcat. by apply elem_of_nil in Hcat. }
  specialize (Hps Hne). rewrite Hp in Hps.
  destruct (Hps Hobj' r Hr) as [Hn|?]; [|done].
  exfalso. apply Hn. by apply elem_of_list_to_set.
Qed.

Lemma main_loads_everything_witness :
  let d' := final_store (main true false books_files empty_db) in
  Books ∈ category_names d' ∧ Dune ∈ product_names d'.
Proof.
  intros d'.
  destruct (main_loads_everything false books_files empty_db
              [Obj {["name" := Books]}] eq_refl) as [H1 H2].
  { by repeat constructor. }
  split.
  - apply H1. apply list_elem_of_here.
  - refine (H2 [dune_record] _ eq_refl _ (list_elem_of_here _ _) _).
    + by repeat constructor.
    + apply list_elem_of_here.
Defined.

(** X11. A categories file that is an array of objects none of which has a
    non-empty name, the empty array included, loads nothing: [main] logs
    zero new and zero existing categories, warns that no categories were
    loaded, does not read the products file and leaves the store as it
    was. *)
Theorem main_no_named_category (af : bool) (fs : Files) (d : Database)
    (cs : list record) :
  CATEGORIES_FILE fs = Content cs → Forall is_obj cs → names cs = [] →
  main true af fs d =
    {| exit_code := 0;
       final_store := d;
       session := Some {| autoflush := af; tx := d; pending := [];
                          closed := true; rolled_back := false |};
       output := [(INFO, Starting); (INFO, ProcessingCategories (length cs));
                  (INFO, CategoriesLoaded 0 0); (WARNING, NoCategoriesLoaded);
                  (INFO, Completed)] |}.
Proof.
  intros Hf Hobj Hnil.
  assert (Hst : stable fs (store (connected af d))).
  { unfold stable. rewrite Hf, Hnil. intros _. split; [|done].
    by intros k ?%elem_of_nil. }
  destruct (loading_body_present fs cs (connected af d)
              (clean_connected af d) Hst Hf Hobj) as [Hb _].
  rewrite (main_Return _ _ _ _ _ (Hb Hnil)). by rewrite Hnil.
Qed.

Lemma main_no_named_category_witness :
  main true true
    {| CATEGORIES_FILE := Content [Obj {["name" := VStr ""]}; Obj ∅];
       PRODUCTS_FILE := Invalid |} books_db =
    {| exit_code := 0;
       final_store := books_db;
       session := Some {| autoflush := true; tx := books_db; pending := [];
                          closed := true; rolled_back := false |};
       output := [(INFO, Starting); (INFO, ProcessingCategories 2);
                  (INFO, CategoriesLoaded 0 0); (WARNING, NoCategoriesLoaded);
                  (INFO, Completed)] |}.
Proof.
  refine (main_no_named_category true
            {| CATEGORIES_FILE := Content [Obj {["name" := VStr ""]}; Obj ∅];
               PRODUCTS_FILE := Invalid |} books_db
            [Obj {["name" := VStr ""]}; Obj ∅] eq_refl _ eq_refl).
  by repeat constructor.
Defined.

(** ** [load_categories], record by record *)

Lemma for_each_app {A S} (xs ys : list A) (body : A → S → M S) acc w :
  for_each (xs ++ ys) body acc w =
    (acc' ← for_each xs body acc; for_each ys body acc') w.
Proof.
  revert acc w. induction xs as [|x xs IH]; intros acc w; simpl; [done|].
  unfold mbind, M_bind in *.
  destruct (body x acc w) as [[acc'|e] w']; [apply IH|done].
Qed.

Lemma load_categories_loop_Return w0 m0 n0 e0 cs :
  pending (db w0) = [] → Forall is_obj cs →
  ∃ m n e w,
    for_each cs load_categories_body (m0, n0, e0) w0 = (Return (m, n, e), w) ∧
    categories_inv w0 m0 n0 e0 cs (m, n, e) w.
Proof.
  intros Hpe Hobj.
  pose proof (load_categories_loop w0 m0 n0 e0 cs Hpe) as H. unfold wp in H.
  destruct (for_each cs load_categories_body (m0, n0, e0) w0)
    as [[[[m n] e]|ex] w]; [by eauto 10|]. by destruct H as [_ []].
Qed.

(** The loop writes the mapping only at the names of its records. *)
Lemma load_categories_loop_frame w0 m0 n0 e0 cs :
  wp (for_each cs load_categories_body (m0, n0, e0)) w0
     (λ acc _, ∀ k, k ∉ names cs → acc.1.1 !! k = m0 !! k) (λ _ _, True).
Proof.
  apply (wp_for_each
    (λ pre (acc : gmap value Z * nat * nat) _,
       ∀ k, k ∉ names pre → acc.1.1 !! k = m0 !! k) (λ _ _, True)).
  - intros pre [d|] post [[m n] e] w _ HI; [|by step_body].
    unfold wp. rewrite load_categories_body_Obj. cbv zeta.
    rewrite names_snoc, names_cons_Obj. simpl in *.
    destruct (truthy (dict_get d "name")).
    + destruct (List.find _ _); simpl; intros k Hk;
        rewrite elem_of_app, list_elem_of_singleton in Hk;
        (rewrite lookup_insert_ne;
           [apply HI; tauto|intros Heq; apply Hk; right; by rewrite Heq]).
    + simpl. intros k Hk. rewrite app_nil_r in Hk. by apply HI.
  - done.
Qed.

(** C5. [load_categories] over a file that is an array of objects, record
    by record.  The loop runs over every record and [load_categories]
    commits what the loop leaves, logs its two counters and returns its
    mapping.  At each record, the store being still as it was on entry: a
    record without a non-empty name changes nothing, no counter and no
    binding; a name no category carries gets a category, flushed into the
    transaction under an identifier no other category has, "new" is
    incremented; a name some category carries increments "existing" and
    creates nothing; in both cases the name is bound to the identifier,
    whatever it was bound to before, and the mapping returned binds a name
    as the last record of that name bound it. *)
Theorem load_categories_record_by_record (fs : Files) (cs : list record)
    (w : World) :
  clean w → CATEGORIES_FILE fs = Content cs → Forall is_obj cs →
  let w_in := log_line INFO (ProcessingCategories (length cs)) w in
  ∃ category_map new_count existing_count w_out,
    for_each cs load_categories_body (∅, 0%nat, 0%nat) w_in =
      (Return (category_map, new_count, existing_count), w_out) ∧
    load_categories fs w =
      (Return category_map,
       {| store := tx (db w_out); db := db w_out;
          logs := logs w ++
                  [(INFO, ProcessingCategories (length cs));
                   (INFO, CategoriesLoaded new_count existing_count)] |}) ∧
    ∀ pre d post, cs = pre ++ Obj d :: post →
      ∃ m1 n1 e1 w1 m2 n2 e2 w2,
        for_each pre load_categories_body (∅, 0%nat, 0%nat) w_in =
          (Return (m1, n1, e1), w1) ∧
        load_categories_body (Obj d) (m1, n1, e1) w1 =
          (Return (m2, n2, e2), w2) ∧
        for_each post load_categories_body (m2, n2, e2) w2 =
          (Return (category_map, new_count, existing_count), w_out) ∧
        store w1 = store w ∧ store w2 = store w ∧
        pending (db w1) = [] ∧ pending (db w2) = [] ∧
        logs w2 = logs w1 ∧
        let name := dict_get d "name" in
        (truthy name = false → (m2, n2, e2) = (m1, n1, e1) ∧ w2 = w1) ∧
        (truthy name = true → name ∉ category_names (tx (db w1)) →
           ∃ id,
             (id ∉ category_ids (tx (db w1))) ∧
             categories (tx (db w2)) =
               categories (tx (db w1)) ++
                 [ {| category_id := id; category_name := name |} ] ∧
             products (tx (db w2)) = products (tx (db w1)) ∧
             m2 = <[name := id]> m1 ∧ n2 = S n1 ∧ e2 = e1) ∧
        (truthy name = true → name ∈ category_names (tx (db w1)) →
           ∃ c,
             c ∈ categories (tx (db w1)) ∧ category_name c = name ∧
             w2 = w1 ∧
             m2 = <[name := category_id c]> m1 ∧ n2 = n1 ∧ e2 = S e1) ∧
        (truthy name = true → name ∉ names post →
           category_map !! name = m2 !! name ∧ is_Some (m2 !! name)).
Proof.
  intros [Hpe Htx] Hf Hobj w_in.
  assert (Hpe_in : pending (db w_in) = []) by done.
  destruct (load_categories_loop_Return w_in ∅ 0 0 cs Hpe_in Hobj)
    as (m & n & e & w_out & Hloop & Hinv).
  exists m, n, e, w_out. split; [done|]. split.
  { destruct Hinv as (_ & Hlg & _ & _ & Hpe' & _).
    unfold load_categories. rewrite Hf. simpl.
    unfold mbind at 1, M_bind at 1. simpl.
    unfold mbind at 1, M_bind at 1. simpl.
    unfold mbind at 1, M_bind at 1. fold w_in. rewrite Hloop.
    simpl. unfold db_commit, logger, log_line, mbind, M_bind. simpl.
    rewrite (session_flush_clean _ Hpe'), Hpe', Hlg. simpl.
    by rewrite <-(assoc_L (++)). }
  intros pre d post ->.
  apply Forall_app in Hobj as [Hpre [_ Hpost]%Forall_cons].
  destruct (load_categories_loop_Return w_in ∅ 0 0 pre Hpe_in Hpre)
    as (m1 & n1 & e1 & w1 & Hloop1 & Hinv1).
  destruct Hinv1 as (Hst1 & Hlg1 & _ & _ & Hpe1 & _).
  rewrite for_each_app in Hloop. unfold mbind at 1, M_bind at 1 in Hloop.
  rewrite Hloop1 in Hloop. cbn [for_each] in Hloop.
  unfold mbind at 1, M_bind at 1 in Hloop.
  pose proof (load_categories_body_Obj d m1 n1 e1 w1) as Hbody.
  cbv zeta in Hbody. unfold visible, view in Hbody.
  rewrite (session_autoflush_clean _ Hpe1), Hpe1, world_eta in Hbody.
  cbn [flush_rows foldl] in Hbody.
  destruct (truthy (dict_get d "name")) eqn:Htr;
    [destruct (List.find _ _) as [c|] eqn:Hfind|];
    rewrite Hbody in Hloop;
    pose proof (wp_Return _ _ _ _ _ _
                  (load_categories_loop_frame _ _ _ _ post) Hloop) as Hframe;
    cbn [fst] in Hframe;
    eexists m1, n1, e1, w1, _, _, _, _;
    (split; [exact Hloop1|]); (split; [exact Hbody|]);
    (split; [exact Hloop|]).
  - apply find_Some_elem in Hfind as [Hc Hname%bool_decide_eq_true_1].
    cbv zeta. rewrite Htr. split_and!; try done.
    + intros _ Hnone. exfalso. apply Hnone, list_elem_of_fmap. eauto.
    + intros _ _. exists c. by split_and!.
    + intros _ Hk. split; [by apply Hframe|].
      rewrite lookup_insert_eq. eauto.
  - apply find_category_None in Hfind. cbn [store db logs tx pending].
    cbv zeta. rewrite Htr. split_and!; try done.
    + intros _ _. eexists. split_and!; try done. apply fresh_id_fresh.
    + intros _ Hk. split; [by apply Hframe|].
      rewrite lookup_insert_eq. eauto.
  - cbv zeta. rewrite Htr. by split_and!.
Qed.

Lemma load_categories_record_by_record_witness :
  ∃ category_map new_count existing_count w_out,
    for_each [Obj {["name" := Books]}] load_categories_body
      (∅, 0%nat, 0%nat)
      (log_line INFO (ProcessingCategories 1) (connected true empty_db)) =
      (Return (category_map, new_count, existing_count), w_out) ∧
    load_categories books_files (connected true empty_db) =
      (Return category_map,
       {| store := tx (db w_out); db := db w_out;
          logs := [(INFO, Starting)] ++
                  [(INFO, ProcessingCategories 1);
                   (INFO, CategoriesLoaded new_count existing_count)] |}).
Proof.
  destruct (load_categories_record_by_record books_files
              [Obj {["name" := Books]}] (connected true empty_db)
              (clean_connected _ _) eq_refl)
    as (m & n & e & w_out & H1 & H2 & _).
  { by repeat constructor. }
  exists m, n, e, w_out. by split.
Defined.
